(** * htmlwriter: a shallow embedding of [HTMLTranslator]

    The definitions below follow [htmlwriter/__init__.py].  Python text is
    modelled by [string]: a character is a code point below 256, so that
    [ascii_of_nat 160] is the non-breaking space and ["@"] is code point 64.
    Python exceptions are values of [exn]; a computation that may raise
    returns a [result]. *)

From Stdlib Require Import String Ascii List ZArith Lia Bool Arith.
From Stdlib Require Import Floats.SpecFloat Floats.PrimFloat Floats.FloatOps.
Import ListNotations.
Open Scope string_scope.
Open Scope nat_scope.
Set Warnings "-register-all".

(** ** Exceptions and results *)

Inductive exn : Type :=
| AssertionError
| IndexError
| KeyError
| TypeError
| AttributeError
| ZeroDivisionError
| OverflowError
| ValueError
| NotImplementedError.

Inductive result (A : Type) : Type :=
| Ok (a : A)
| Raise (e : exn).
Arguments Ok {A} a.
Arguments Raise {A} e.

Definition bind {A B : Type} (r : result A) (k : A -> result B) : result B :=
  match r with
  | Ok a => k a
  | Raise e => Raise e
  end.

Notation "x <- r ;; k" := (bind r (fun x => k))
  (at level 61, r at next level, right associativity).

(** How a [visit_] method ends: it returns, it raises [nodes.SkipNode]
    (the state it built is kept), or it raises an error. *)
Inductive signal (S : Type) : Type :=
| Continue (st : S)
| SkipNode (st : S)
| Abort (e : exn).
Arguments Continue {S} st.
Arguments SkipNode {S} st.
Arguments Abort {S} e.

(** ** Text helpers (the [str] methods the writer calls) *)

Module Text.

Definition chr (n : nat) : ascii := ascii_of_nat n.
Definition ord (c : ascii) : nat := nat_of_ascii c.

Definition nbsp : ascii := chr 160.

(** [l.append(x)] *)
Definition append {A : Type} (l : list A) (x : A) : list A := (l ++ [x])%list.

(** [''.join(l)] *)
Fixpoint concat_all (l : list string) : string :=
  match l with
  | [] => ""
  | s :: l' => s ++ concat_all l'
  end.

(** [sep.join(l)] *)
Fixpoint join (sep : string) (l : list string) : string :=
  match l with
  | [] => ""
  | [s] => s
  | s :: l' => s ++ sep ++ join sep l'
  end.

(** [s.startswith(p)]; on success the remainder of [s] is returned. *)
Fixpoint strip_prefix (p s : string) : option string :=
  match p with
  | EmptyString => Some s
  | String a p' =>
      match s with
      | EmptyString => None
      | String b s' => if Ascii.eqb a b then strip_prefix p' s' else None
      end
  end.

Definition startswith (s p : string) : bool :=
  match strip_prefix p s with
  | Some _ => true
  | None => false
  end.

(** [c.isspace()] for code points below 256. *)
Definition isspace (c : ascii) : bool :=
  let n := ord c in
  ((9 <=? n) && (n <=? 13)) || ((28 <=? n) && (n <=? 32))
  || (n =? 133) || (n =? 160).

(** [c.lower()] for code points below 256. *)
Definition lower_char (c : ascii) : ascii :=
  let n := ord c in
  if ((65 <=? n) && (n <=? 90))
     || ((192 <=? n) && (n <=? 222) && negb (n =? 215))
  then chr (n + 32) else c.

Fixpoint lower (s : string) : string :=
  match s with
  | EmptyString => EmptyString
  | String c s' => String (lower_char c) (lower s')
  end.

(** [s.split()]: the maximal runs of non-whitespace characters. *)
Fixpoint split_ws_aux (cur : string) (s : string) : list string :=
  match s with
  | EmptyString => if String.eqb cur "" then [] else [cur]
  | String c s' =>
      if isspace c
      then (if String.eqb cur "" then split_ws_aux "" s'
            else cur :: split_ws_aux "" s')
      else split_ws_aux (cur ++ String c "") s'
  end.

Definition split_ws (s : string) : list string := split_ws_aux "" s.

(** [s.strip()] is only used for its truth value in [starttag]. *)
Fixpoint all_space (s : string) : bool :=
  match s with
  | EmptyString => true
  | String c s' => isspace c && all_space s'
  end.

(** [s.split(sep)] for a one-character separator. *)
Fixpoint split_on_aux (sep : ascii) (cur s : string) : list string :=
  match s with
  | EmptyString => [cur]
  | String c s' =>
      if Ascii.eqb c sep then cur :: split_on_aux sep "" s'
      else split_on_aux sep (cur ++ String c "") s'
  end.

Definition split_on (sep : ascii) (s : string) : list string :=
  split_on_aux sep "" s.

(** [x in l] for a list of strings. *)
Fixpoint mem (x : string) (l : list string) : bool :=
  match l with
  | [] => false
  | y :: l' => String.eqb x y || mem x l'
  end.

(** [s.replace(old, new)] for a non-empty [old]: non-overlapping
    occurrences, leftmost first.  [fuel] bounds the scan; [replace] gives
    it the length of [s], which is enough since every step consumes at
    least one character. *)
Fixpoint replace_aux (fuel : nat) (old new s : string) : string :=
  match fuel with
  | O => s
  | S fuel' =>
      match strip_prefix old s with
      | Some rest => new ++ replace_aux fuel' old new rest
      | None =>
          match s with
          | EmptyString => EmptyString
          | String c s' => String c (replace_aux fuel' old new s')
          end
      end
  end.

Definition replace (old new s : string) : string :=
  replace_aux (String.length s) old new s.

(** [str(n)] for a natural number. *)
Fixpoint digits_aux (fuel n : nat) (acc : string) : string :=
  match fuel with
  | O => acc
  | S fuel' =>
      let acc' := String (chr (48 + n mod 10)) acc in
      if n / 10 =? 0 then acc' else digits_aux fuel' (n / 10) acc'
  end.

Definition str_of_nat (n : nat) : string := digits_aux (S n) n "".

Definition str_of_Z (z : Z) : string :=
  match z with
  | Z0 => "0"
  | Zpos _ => str_of_nat (Z.to_nat z)
  | Zneg _ => "-" ++ str_of_nat (Z.to_nat (- z))
  end.

End Text.

(** ** Markup emitter: escaping *)

Module Emitter.
Import Text.

Definition amp : ascii := chr 38.
Definition lt : ascii := chr 60.
Definition quot : ascii := chr 34.
Definition gt : ascii := chr 62.
Definition at_sign : ascii := chr 64.

(** The translation table of [HTMLTranslator.encode], in the order of the
    source. *)
Definition encode_char (c : ascii) : string :=
  if Ascii.eqb c amp then "&amp;"
  else if Ascii.eqb c lt then "&lt;"
  else if Ascii.eqb c quot then "&quot;"
  else if Ascii.eqb c gt then "&gt;"
  else if Ascii.eqb c at_sign then "&#64;"
  else if Ascii.eqb c nbsp then "&nbsp;"
  else String c "".

(** [HTMLTranslator.encode]: [text.translate({...})]. *)
Fixpoint encode (text : string) : string :=
  match text with
  | EmptyString => EmptyString
  | String c text' => encode_char c ++ encode text'
  end.

(** [HTMLTranslator.cloak_mailto] *)
Definition cloak_mailto (uri : string) : string := replace "@" "%40" uri.


(** The characters matched by the [whitespace] pattern of [attval],
    [[\n\r\t\v\f]]. *)
Definition attval_whitespace (c : ascii) : bool :=
  let n := ord c in (9 <=? n) && (n <=? 13).

Fixpoint sub_whitespace (text : string) : string :=
  match text with
  | EmptyString => EmptyString
  | String c text' =>
      String (if attval_whitespace c then " "%char else c)
             (sub_whitespace text')
  end.

(** [HTMLTranslator.attval]; [in_mailto] is the translator's flag and
    [cloak_email_addresses] the setting. *)
Definition attval (in_mailto cloak_email_addresses : bool) (text : string)
  : string :=
  let encoded := encode (sub_whitespace text) in
  if in_mailto && cloak_email_addresses then
    let encoded := replace "%40" "&#37;&#52;&#48;" encoded in
    replace "." "&#46;" encoded
  else encoded.

(** Modelled from the spec: the un-escaping of the round-trip property.  The
    writer has no decoder; this one reads the text from the left and replaces
    each of the six character references that [encode] emits by its
    character, leaving everything else as it is. *)
Definition references : list (string * ascii) :=
  [("amp;", amp); ("lt;", lt); ("quot;", quot); ("gt;", gt);
   ("#64;", at_sign); ("nbsp;", nbsp)].

Fixpoint decode_reference (tbl : list (string * ascii)) (s : string)
  : option (ascii * string) :=
  match tbl with
  | [] => None
  | (name, c) :: tbl' =>
      match strip_prefix name s with
      | Some rest => Some (c, rest)
      | None => decode_reference tbl' s
      end
  end.

Fixpoint unescape_aux (fuel : nat) (s : string) : string :=
  match fuel with
  | O => s
  | S fuel' =>
      match s with
      | EmptyString => EmptyString
      | String c s' =>
          if Ascii.eqb c amp then
            match decode_reference references s' with
            | Some (d, rest) => String d (unescape_aux fuel' rest)
            | None => String c (unescape_aux fuel' s')
            end
          else String c (unescape_aux fuel' s')
      end
  end.

Definition unescape (s : string) : string :=
  unescape_aux (String.length s) s.

(** Text without a raw [&], [<], [>] or double quote. *)
Fixpoint no_raw (s : string) : bool :=
  match s with
  | EmptyString => true
  | String c s' =>
      negb (Ascii.eqb c amp || Ascii.eqb c lt || Ascii.eqb c gt
            || Ascii.eqb c quot)
      && no_raw s'
  end.

(** The characters that [encode] replaces. *)
Definition special (c : ascii) : bool :=
  Ascii.eqb c amp || Ascii.eqb c lt || Ascii.eqb c quot || Ascii.eqb c gt
  || Ascii.eqb c at_sign || Ascii.eqb c nbsp.


(** *** Attribute values and dictionaries

    A docutils attribute value, or a keyword argument of [starttag]: text, a
    number, a list of texts, or [None]. *)
Inductive value : Type :=
| VStr (s : string)
| VInt (z : Z)
| VList (l : list string)
| VNone.

(** A [dict] with text keys, in insertion order; keys are unique. *)
Definition dict : Type := list (string * value).

Fixpoint lookup (k : string) (d : dict) : option value :=
  match d with
  | [] => None
  | (k', v) :: d' => if String.eqb k k' then Some v else lookup k d'
  end.

(** [k in d] *)
Definition has_key (k : string) (d : dict) : bool :=
  match lookup k d with
  | Some _ => true
  | None => false
  end.

(** [d[k] = v] *)
Fixpoint set (k : string) (v : value) (d : dict) : dict :=
  match d with
  | [] => [(k, v)]
  | (k', v') :: d' =>
      if String.eqb k k' then (k, v) :: d' else (k', v') :: set k v d'
  end.

(** [del d[k]] (also the removal done by [d.pop(k, default)]) *)
Fixpoint remove (k : string) (d : dict) : dict :=
  match d with
  | [] => []
  | (k', v') :: d' =>
      if String.eqb k k' then d' else (k', v') :: remove k d'
  end.

(** [sorted(d.items())]: the keys are unique, so the order is the one of
    the keys, by code point. *)
Fixpoint insert_sorted (kv : string * value) (l : list (string * value))
  : list (string * value) :=
  match l with
  | [] => [kv]
  | kv' :: l' =>
      if String.leb (fst kv) (fst kv') then kv :: kv' :: l'
      else kv' :: insert_sorted kv l'
  end.

Fixpoint sorted_items (d : dict) : list (string * value) :=
  match d with
  | [] => []
  | kv :: d' => insert_sorted kv (sorted_items d')
  end.

(** [node.get(name, [])] for one of the list attributes of a node. *)
Definition get_list (name : string) (attributes : dict)
  : result (list string) :=
  match lookup name attributes with
  | None => Ok []
  | Some (VList l) => Ok l
  | Some _ => Raise TypeError
  end.

(** *** [starttag] *)

Definition dq : string := String quot "".

(** ['<span id="%s"></span>' % id] *)
Definition span_anchor (id : string) : string :=
  "<span id=" ++ dq ++ id ++ dq ++ "></span>".

(** [for (name, value) in attributes.items(): atts[name.lower()] = value] *)
Fixpoint lower_keys (attributes : list (string * value)) (atts : dict)
  : dict :=
  match attributes with
  | [] => atts
  | (name, v) :: rest => lower_keys rest (set (lower name) v atts)
  end.

(** The loop that unifies the class arguments and moves the language
    specification; it returns [(classes, languages)]. *)
Fixpoint unify_classes (l : list string) (classes languages : list string)
  : list string * list string :=
  match l with
  | [] => (classes, languages)
  | cls :: l' =>
      match strip_prefix "language-" cls with
      | Some rest => unify_classes l' classes (languages ++ [rest])%list
      | None =>
          if negb (all_space cls) && negb (mem cls classes)
          then unify_classes l' (classes ++ [cls])%list languages
          else unify_classes l' classes languages
      end
  end.

(** One attribute of the tag, as the last loop of [starttag] formats it. *)
Definition format_attribute (in_mailto cloak : bool) (name : string)
  (v : value) : string :=
  match v with
  | VNone => lower name
  | VList l => lower name ++ "=" ++ dq ++ attval in_mailto cloak (join " " l)
               ++ dq
  | VStr s => lower name ++ "=" ++ dq ++ s ++ dq
  | VInt z => lower name ++ "=" ++ dq ++ str_of_Z z ++ dq
  end.

(** [atts.pop('class', '')], which must have a [split] method. *)
Definition class_argument (atts : dict) : result string :=
  match lookup "class" atts with
  | None => Ok ""
  | Some (VStr s) => Ok s
  | Some _ => Raise AttributeError
  end.

(** What [ids.extend(atts['ids'])] adds when ['ids' in atts]. *)
Definition ids_argument (atts : dict) : result (list string) :=
  match lookup "ids" atts with
  | None => Ok []
  | Some (VList l) => Ok l
  | Some (VStr s) => Ok (map (fun c => String c "") (list_ascii_of_string s))
  | Some _ => Raise TypeError
  end.

(** [HTMLTranslator.starttag(node, tagname, suffix, empty, **attributes)].
    [node_attributes] is the attribute dictionary of [node] (empty for the
    [{}] that [visit_title] passes); [in_mailto] and [cloak] are read by
    [attval]. *)
Definition starttag (in_mailto cloak : bool) (node_attributes : dict)
  (tagname suffix : string) (empty : bool)
  (attributes : list (string * value)) : result string :=
  let tagname := lower tagname in
  let atts := lower_keys attributes [] in
  class_arg <- class_argument atts ;;
  node_classes <- get_list "classes" node_attributes ;;
  let atts := remove "class" atts in
  let '(classes, languages) :=
    unify_classes (node_classes ++ split_ws class_arg)%list [] [] in
  let atts := match languages with
              | [] => atts
              | l0 :: _ => set "lang" (VStr l0) atts
              end in
  let atts := match classes with
              | [] => atts
              | _ :: _ => set "class" (VStr (join " " classes)) atts
              end in
  if has_key "id" atts then Raise AssertionError else
  node_ids <- get_list "ids" node_attributes ;;
  more_ids <- ids_argument atts ;;
  let atts := remove "ids" atts in
  let ids := (node_ids ++ more_ids)%list in
  let '(atts, prefix, suffix) :=
    match ids with
    | [] => (atts, [], suffix)
    | id0 :: others =>
        (set "id" (VStr id0) atts,
         if empty then map span_anchor others else [],
         if empty then suffix
         else suffix ++ concat_all (map span_anchor others))
    end in
  let parts :=
    tagname :: map (fun kv => format_attribute in_mailto cloak (fst kv)
                                (snd kv))
                   (sorted_items atts) in
  Ok (concat_all prefix ++ "<" ++ join " " parts ++ ">" ++ suffix).


(** [HTMLTranslator.emptytag] *)
Definition emptytag (in_mailto cloak : bool) (node_attributes : dict)
  (tagname suffix : string) (attributes : list (string * value))
  : result string :=
  starttag in_mailto cloak node_attributes tagname suffix true attributes.

End Emitter.


(** ** The document tree *)

Module nodes.
Import Text Emitter.

(** The node classes for which the writer defines a handler, and [pending],
    which only [SimpleListChecker] names. *)
Inductive kind : Type :=
| abbreviation | acronym | address | admonition | attribution | author
| authors | block_quote | bullet_list | caption | citation
| citation_reference | classifier | colspec | comment | compound
| container | contact | copyright | date | decoration | definition
| definition_list | definition_list_item | description | docinfo
| doctest_block | document | emphasis | entry | enumerated_list | field
| field_body | field_list | field_name | figure | footer | footnote
| footnote_reference | generated | header | image | inline | label
| legend | line | line_block | list_item | literal | literal_block
| math | math_block | meta | option | option_argument | option_group
| option_list | option_list_item | option_string | organization
| paragraph | pending | problematic | raw | reference | revision | row
| rubric | section | sidebar | status | strong | subscript
| substitution_definition | substitution_reference | subtitle
| superscript | system_message | table | target | tbody | term | tgroup
| thead | title | title_reference | topic | transition | version.

Definition kind_eq_dec (a b : kind) : {a = b} + {a <> b}.
Proof. decide equality. Defined.

Definition kind_eqb (a b : kind) : bool :=
  if kind_eq_dec a b then true else false.

(** A node is a text leaf or an element with attributes and children. *)
Inductive node : Type :=
| Text (data : string)
| Element (k : kind) (attributes : dict) (children : list node).

Definition children (n : node) : list node :=
  match n with
  | Text _ => []
  | Element _ _ cs => cs
  end.

Definition attributes (n : node) : dict :=
  match n with
  | Text _ => []
  | Element _ a _ => a
  end.

(** [isinstance(n, nodes.k)] *)
Definition is_kind (k : kind) (n : node) : bool :=
  match n with
  | Text _ => false
  | Element k' _ _ => kind_eqb k k'
  end.

(** [isinstance(n, nodes.Invisible)]: the four classes that
    [SimpleListChecker] lists under "Invisible nodes". *)
Definition is_invisible (n : node) : bool :=
  is_kind comment n || is_kind substitution_definition n
  || is_kind target n || is_kind pending n.

(** [node[name]] for a list attribute. *)
Definition item_list (name : string) (n : node) : result (list string) :=
  match lookup name (attributes n) with
  | None => Raise KeyError
  | Some (VList l) => Ok l
  | Some _ => Raise TypeError
  end.

(** Truth value of an attribute value that may be missing. *)
Definition truthy (v : Datatypes.option value) : bool :=
  match v with
  | None | Some VNone => false
  | Some (VStr s) => negb (String.eqb s "")
  | Some (VInt z) => negb (Z.eqb z 0)
  | Some (VList l) => match l with [] => false | _ => true end
  end.

End nodes.

(** The settings the modelled handlers read. *)
Record settings : Type := {
  attribution : string;
  cloak_email_addresses : bool;
  compact_lists : bool;
  compact_field_lists : bool;
  footnote_references : string;
  footnote_backlinks : bool
}.

(** ** Footnote and citation labels *)

Module Labels.
Import Text Emitter.

(** ['<a class="fn-backref" href="#%s">' % backrefs[0]] *)
Definition backref_anchor (ref : string) : string :=
  "<a class=" ++ dq ++ "fn-backref" ++ dq ++ " href=" ++ dq ++ "#" ++ ref
  ++ dq ++ ">".

(** ['<a href="#%s">%s</a>' % (ref, number)] *)
Definition backlink (ref : string) (number : nat) : string :=
  "<a href=" ++ dq ++ "#" ++ ref ++ dq ++ ">" ++ str_of_nat number ++ "</a>".

(** ['<span class="fn-backref">(%s)</span>' % ','.join(backlinks)] *)
Definition backlinks_span (backlinks : list string) : string :=
  "<span class=" ++ dq ++ "fn-backref" ++ dq ++ ">(" ++ join "," backlinks
  ++ ")</span>".

(** ['</dt>\n<dd>'] *)
Definition label_end : string := "</dt>" ++ String (chr 10) "<dd>".

(** [HTMLTranslator.visit_label]: the fragments appended to [body].
    [parent] is [node.parent]. *)
Definition visit_label (in_mailto : bool) (cfg : settings)
  (parent n : nodes.node) (body : list string) : result (list string) :=
  let cloak := cloak_email_addresses cfg in
  let classes := if nodes.is_kind nodes.footnote parent
                 then footnote_references cfg
                 else "brackets" in
  t1 <- starttag in_mailto cloak (nodes.attributes parent) "dt" "" false
          [("CLASS", VStr "label")] ;;
  let body := append body t1 in
  t2 <- starttag in_mailto cloak (nodes.attributes n) "span" "" false
          [("CLASS", VStr classes)] ;;
  let body := append body t2 in
  if footnote_backlinks cfg then
    backrefs <- nodes.item_list "backrefs" parent ;;
    match backrefs with
    | [r] => Ok (append body (backref_anchor r))
    | _ => Ok body
    end
  else Ok body.

(** [[backlink ref (i+1) for (i, ref) in enumerate(backrefs)]], [i]
    starting at [start]. *)
Fixpoint backlinks (start : nat) (backrefs : list string) : list string :=
  match backrefs with
  | [] => []
  | ref :: rest => backlink ref (start + 1) :: backlinks (S start) rest
  end.

(** [HTMLTranslator.depart_label] *)
Definition depart_label (cfg : settings) (parent n : nodes.node)
  (body : list string) : result (list string) :=
  let body := append body "</span>" in
  body <- (if footnote_backlinks cfg then
             backrefs <- nodes.item_list "backrefs" parent ;;
             match backrefs with
             | [] => Ok body
             | [_] => Ok (append body "</a>")
             | _ => Ok (append body (backlinks_span (backlinks 0 backrefs)))
             end
           else Ok body) ;;
  Ok (append body label_end).

End Labels.

(** ** Tables: column specifications and cells *)

Module Tables.
Import Text Emitter.

(** [l[i]] with Python's negative indices. *)
Definition py_index {A : Type} (l : list A) (i : Z) : result A :=
  let n := Z.of_nat (List.length l) in
  let j := if (i <? 0)%Z then (i + n)%Z else i in
  if ((0 <=? j)%Z && (j <? n)%Z)%bool then
    match nth_error l (Z.to_nat j) with
    | Some x => Ok x
    | None => Raise IndexError
    end
  else Raise IndexError.

(** [node[name]] where a number is expected. *)
Definition item_int (name : string) (attributes : dict) : result Z :=
  match lookup name attributes with
  | None => Raise KeyError
  | Some (VInt z) => Ok z
  | Some _ => Raise TypeError
  end.

(** What [visit_entry] leaves behind: the row's column cursor, the tag name
    and attributes handed to [starttag], the fragment appended to [body] and
    the closing tag pushed on [context]. *)
Record entry_effect : Type := {
  column : Z;
  tagname : string;
  atts : dict;
  fragment : string;
  closing : string
}.

(** [HTMLTranslator.visit_entry].  [in_thead] is
    [isinstance(node.parent.parent, nodes.thead)], [stubs] the list of the
    table group, [column0] the cursor [node.parent.column] on entry. *)
Definition visit_entry (in_mailto cloak in_thead : bool)
  (stubs : list (option value)) (column0 : Z) (node_attributes : dict)
  : result entry_effect :=
  let classes := if in_thead then ["head"] else [] in
  stub <- py_index stubs column0 ;;
  let classes := if nodes.truthy stub then append classes "stub"
                 else classes in
  let '(tagname, atts) :=
    match classes with
    | [] => ("td", [])
    | _ :: _ => ("th", [("class", VStr (join " " classes))])
    end in
  let column := (column0 + 1)%Z in
  atts <- (if has_key "morerows" node_attributes then
             morerows <- item_int "morerows" node_attributes ;;
             Ok (set "rowspan" (VInt (morerows + 1)) atts)
           else Ok atts) ;;
  r <- (if has_key "morecols" node_attributes then
          morecols <- item_int "morecols" node_attributes ;;
          Ok (set "colspan" (VInt (morecols + 1)) atts,
              (column + morecols)%Z)
        else Ok (atts, column)) ;;
  let '(atts, column) := r in
  fragment <- starttag in_mailto cloak node_attributes tagname "" false
                atts ;;
  Ok {| column := column; tagname := tagname; atts := atts;
        fragment := fragment;
        closing := "</" ++ lower tagname ++ ">" ++ String (chr 10) "" |}.


(** *** Column widths

    The widths are Python integers; [* 100.0], [/ width] and [+ 0.5] are
    binary64 operations and [int] truncates. *)

(** Conversion of an [int] operand to [float]: round to nearest, ties to
    even, [OverflowError] beyond the range. *)
Definition float_of_int (z : Z) : result float :=
  let f := SF2Prim (binary_normalize prec emax z 0 false) in
  if PrimFloat.is_infinity f then Raise OverflowError else Ok f.

(** [int(x)] *)
Definition int_of_float (x : float) : result Z :=
  match Prim2SF x with
  | S754_zero _ => Ok 0%Z
  | S754_finite s m e =>
      let v := match e with
               | Zneg p => Z.shiftr (Z.pos m) (Z.pos p)
               | _ => Z.shiftl (Z.pos m) e
               end in
      Ok (if s then (- v)%Z else v)
  | S754_infinity _ => Raise OverflowError
  | S754_nan => Raise ValueError
  end.

(** [int(colwidth * 100.0 / width + 0.5)] *)
Definition colwidth_percent (colwidth width : Z) : result Z :=
  fw <- float_of_int colwidth ;;
  let x := PrimFloat.mul fw 100%float in
  fW <- float_of_int width ;;
  if (width =? 0)%Z then Raise ZeroDivisionError else
  int_of_float (PrimFloat.add (PrimFloat.div x fW) 0.5%float).

(** [self.emptytag(node, 'col', style='width:%i%%' % colwidth)] *)
Definition col_tag (in_mailto cloak : bool) (node : dict) (colwidth : Z)
  : result string :=
  emptytag in_mailto cloak node "col" (String (chr 10) "")
    [("style", VStr ("width:" ++ str_of_Z colwidth ++ "%"))].

(** The first loop of [write_colspecs]. *)
Fixpoint total_width (colspecs : list dict) (width : Z) : result Z :=
  match colspecs with
  | [] => Ok width
  | node :: rest =>
      w <- item_int "colwidth" node ;;
      total_width rest (width + w)%Z
  end.

(** The second loop of [write_colspecs]. *)
Fixpoint write_cols (in_mailto cloak : bool) (colspecs : list dict)
  (width : Z) (body : list string) : result (list string) :=
  match colspecs with
  | [] => Ok body
  | node :: rest =>
      w <- item_int "colwidth" node ;;
      colwidth <- colwidth_percent w width ;;
      tag <- col_tag in_mailto cloak node colwidth ;;
      write_cols in_mailto cloak rest width (append body tag)
  end.

(** [HTMLTranslator.write_colspecs]: the new [body] and the emptied
    [self.colspecs]. *)
Definition write_colspecs (in_mailto cloak : bool) (colspecs : list dict)
  (body : list string) : result (list string * list dict) :=
  width <- total_width colspecs 0%Z ;;
  body <- write_cols in_mailto cloak colspecs width body ;;
  Ok (body, []).

(** The percentages that [write_colspecs] computes for a list of widths. *)
Fixpoint percentages_of (widths : list Z) (width : Z) : result (list Z) :=
  match widths with
  | [] => Ok []
  | w :: rest =>
      p <- colwidth_percent w width ;;
      ps <- percentages_of rest width ;;
      Ok (p :: ps)
  end.

Definition percentages (widths : list Z) : result (list Z) :=
  percentages_of widths (fold_left Z.add widths 0%Z).








Definition three_colspecs : list dict :=
  [[("colwidth", VInt 10)]; [("colwidth", VInt 20)];
   [("colwidth", VInt 3)]].

End Tables.

(** ** Compact lists: [SimpleListChecker] and [is_compactable] *)

Module Compact.
Import Text Emitter.

(** What a [SimpleListChecker] method does with a node: return, raise
    [nodes.SkipNode], or raise [nodes.NodeFound]. *)
Inductive verdict : Type :=
| Pass
| Skip
| NodeFound.

(** [children[-1]] of a non-empty list. *)
Definition last_node (l : list nodes.node) : option nodes.node :=
  match rev l with
  | [] => None
  | n :: _ => Some n
  end.

(** [SimpleListChecker.visit_list_item] *)
Definition visit_list_item (n : nodes.node) : verdict :=
  let children := filter (fun c => negb (nodes.is_invisible c))
                         (nodes.children n) in
  let children :=
    match children, last_node children with
    | first :: _, Some last =>
        if nodes.is_kind nodes.paragraph first
           && (nodes.is_kind nodes.bullet_list last
               || nodes.is_kind nodes.enumerated_list last
               || nodes.is_kind nodes.field_list last)
        then removelast children
        else children
    | _, _ => children
    end in
  if List.length children <=? 1 then Pass else NodeFound.

(** The method table of [SimpleListChecker]; [default_visit] raises
    [NodeFound]. *)
Definition checker_visit (n : nodes.node) : verdict :=
  match n with
  | nodes.Text _ => Skip
  | nodes.Element k _ _ =>
      match k with
      | nodes.paragraph => Skip
      | nodes.bullet_list | nodes.enumerated_list | nodes.docinfo => Pass
      | nodes.author => Skip
      | nodes.authors | nodes.address => visit_list_item n
      | nodes.contact => Pass
      | nodes.copyright | nodes.date | nodes.organization
      | nodes.status => Skip
      | nodes.version => visit_list_item n
      | nodes.definition_list | nodes.definition_list_item => Pass
      | nodes.term => Skip
      | nodes.classifier => Pass
      | nodes.definition => visit_list_item n
      | nodes.field_list | nodes.field => Pass
      | nodes.field_body => visit_list_item n
      | nodes.field_name => Skip
      | nodes.list_item => visit_list_item n
      | nodes.comment | nodes.substitution_definition | nodes.target
      | nodes.pending => Skip
      | _ => NodeFound
      end
  end.

(** [node.walk(visitor)] with a [SimpleListChecker]: [true] when
    [NodeFound] is raised somewhere in the subtree.  A [SkipNode] ends the
    visit of the node without looking at its children. *)
Fixpoint walk_finds (n : nodes.node) : bool :=
  match checker_visit n with
  | NodeFound => true
  | Skip => false
  | Pass =>
      match n with
      | nodes.Text _ => false
      | nodes.Element _ _ cs =>
          (fix any (l : list nodes.node) : bool :=
             match l with
             | [] => false
             | c :: l' => if walk_finds c then true else any l'
             end) cs
      end
  end.

(** The verdict of the classifier: the walk ends without [NodeFound]. *)
Definition simple_list (n : nodes.node) : bool := negb (walk_finds n).

(** [HTMLTranslator.is_compactable]; [topic_classes] is the translator's
    [self.topic_classes]. *)
Definition is_compactable (cfg : settings) (topic_classes : list string)
  (n : nodes.node) : result bool :=
  classes <- nodes.item_list "classes" n ;;
  if mem "compact" classes then Ok true
  else if mem "open" classes then Ok false
  else if (nodes.is_kind nodes.field_list n
           || nodes.is_kind nodes.definition_list n)
          && negb (compact_field_lists cfg) then Ok false
  else if (nodes.is_kind nodes.enumerated_list n
           || nodes.is_kind nodes.bullet_list n)
          && negb (compact_lists cfg) then Ok false
  else if list_eq_dec string_dec topic_classes ["contents"] then Ok true
  else Ok (simple_list n).

(** The configuration lets the category of the node be compacted. *)
Definition category_enabled (cfg : settings) (n : nodes.node) : bool :=
  negb ((nodes.is_kind nodes.field_list n
         || nodes.is_kind nodes.definition_list n)
        && negb (compact_field_lists cfg))
  && negb ((nodes.is_kind nodes.enumerated_list n
            || nodes.is_kind nodes.bullet_list n)
           && negb (compact_lists cfg)).

End Compact.

(** ** Math dispatcher *)

Module Math.
Import Text Emitter.

(** The part of the translator that [visit_math] reads and writes.
    [reports] collects the messages handed to [document.reporter.error]. *)
Record state : Type := {
  math_output : string;
  math_output_options : list string;
  math_header : list string;
  mathjax_url : string;
  doctype : string;
  body : list string;
  reports : list string
}.

Definition nl : string := String (chr 10) "".

Definition doctype_mathml : string := "<!DOCTYPE html>" ++ nl.

(** [mathjax_script % url] *)
Definition mathjax_script (url : string) : string :=
  "<script type=" ++ dq ++ "text/javascript" ++ dq ++ " src=" ++ dq ++ url
  ++ dq ++ "></script>" ++ nl.

(** The four supported values of [math_output]. *)
Inductive mode : Type := MathML | HTML | MathJax | LaTeX.

Definition mode_of (math_output : string) : option mode :=
  if String.eqb math_output "mathml" then Some MathML
  else if String.eqb math_output "html" then Some HTML
  else if String.eqb math_output "mathjax" then Some MathJax
  else if String.eqb math_output "latex" then Some LaTeX
  else None.

(** [tags]: block tag, inline tag, class argument. *)
Definition tags (m : mode) : string * string * string :=
  match m with
  | MathML => ("div", "", "")
  | HTML => ("div", "span", "formula")
  | MathJax => ("div", "span", "math")
  | LaTeX => ("pre", "tt", "math")
  end.

(** [wrappers[math_output][math_env != '']] applied to the code; [None]
    entries leave the code as it is. *)
Definition wrap (m : mode) (math_env math_code : string) : string :=
  let block := "\begin{" ++ math_env ++ "}" ++ nl ++ math_code ++ nl
               ++ "\end{" ++ math_env ++ "}" in
  match m with
  | HTML => if String.eqb math_env "" then "$" ++ math_code ++ "$"
            else block
  | MathJax => if String.eqb math_env "" then "\(" ++ math_code ++ "\)"
               else block
  | MathML | LaTeX => math_code
  end.

Section Dispatch.

(** What lies outside the writer: the converters of [docutils.utils.math]
    ([parse_latex_math] returns the serialized tree or the arguments of its
    [SyntaxError]), the style sheet references built from files, the
    fragments that [visit_system_message] and [depart_system_message] emit
    for the reporter's node, and [str(err)]. *)
Variable uni2tex : string -> string.
Variable math2html : bool -> string -> string.
Variable parse_latex_math : string -> bool -> string + list string.
Variable stylesheet_calls : list string -> list string.
Variable system_message : list string -> list string.
Variable error_text : list string -> string.

Variables in_mailto cloak : bool.

(** The tail of [visit_math]: the container and the code are appended to
    [body], then [SkipNode] is raised. *)
Definition append_math (st : state) (node_attributes : dict)
  (tag clsarg math_env math_code : string) : signal state :=
  let block := negb (String.eqb math_env "") in
  let opened :=
    if String.eqb tag "" then Ok (body st)
    else
      t <- starttag in_mailto cloak node_attributes tag
             (if block then nl else "") false [("CLASS", VStr clsarg)] ;;
      Ok (append (body st) t) in
  match opened with
  | Raise e => Abort e
  | Ok b =>
      let b := append b math_code in
      let b := if block then append b nl else b in
      let b := if String.eqb tag "" then b
               else append b ("</" ++ tag ++ ">") in
      let b := if block then append b nl else b in
      SkipNode {| math_output := math_output st;
                  math_output_options := math_output_options st;
                  math_header := math_header st;
                  mathjax_url := mathjax_url st;
                  doctype := doctype st;
                  body := b;
                  reports := reports st |}
  end.

(** The [except SyntaxError] branch of the MathML mode. *)
Definition syntax_error (st : state) (node_attributes : dict)
  (math_code : string) (args : list string) : signal state :=
  let r :=
    let b := (body st ++ system_message args)%list in
    t1 <- starttag in_mailto cloak node_attributes "p" nl false [] ;;
    let b := append b t1 in
    let b := append b (join "," args) in
    let b := append b ("</p>" ++ nl) in
    t2 <- starttag in_mailto cloak node_attributes "pre" nl false
            [("CLASS", VStr "literal-block")] ;;
    let b := append b t2 in
    let b := append b (encode math_code) in
    let b := append b (nl ++ "</pre>" ++ nl) in
    Ok (append b ("</div>" ++ nl)) in
  match r with
  | Raise e => Abort e
  | Ok b =>
      SkipNode {| math_output := math_output st;
                  math_output_options := math_output_options st;
                  math_header := math_header st;
                  mathjax_url := mathjax_url st;
                  doctype := doctype st;
                  body := b;
                  reports := append (reports st) (error_text args) |}
  end.

(** [visit_math] once [self.math_output] is one of the four modes. *)
Definition render (m : mode) (st : state) (node_attributes : dict)
  (astext math_env : string) : signal state :=
  let block := negb (String.eqb math_env "") in
  let '(block_tag, inline_tag, clsarg) := tags m in
  let tag := if block then block_tag else inline_tag in
  let math_code := wrap m math_env (uni2tex astext) in
  match m with
  | LaTeX =>
      append_math st node_attributes tag clsarg math_env (encode math_code)
  | MathJax =>
      let math_code := encode math_code in
      let st :=
        match math_header st with
        | [] =>
            let url := match math_output_options st with
                       | [] => mathjax_url st
                       | o :: _ => o
                       end in
            {| math_output := math_output st;
               math_output_options := math_output_options st;
               math_header := [mathjax_script url];
               mathjax_url := url;
               doctype := doctype st;
               body := body st;
               reports := reports st |}
        | _ :: _ => st
        end in
      append_math st node_attributes tag clsarg math_env math_code
  | HTML =>
      let st :=
        match math_output_options st, math_header st with
        | o :: _, [] =>
            {| math_output := math_output st;
               math_output_options := math_output_options st;
               math_header := stylesheet_calls (split_on "," o);
               mathjax_url := mathjax_url st;
               doctype := doctype st;
               body := body st;
               reports := reports st |}
        | _, _ => st
        end in
      append_math st node_attributes tag clsarg math_env
        (math2html block math_code)
  | MathML =>
      let st := {| math_output := math_output st;
                   math_output_options := math_output_options st;
                   math_header := math_header st;
                   mathjax_url := mathjax_url st;
                   doctype := doctype_mathml;
                   body := body st;
                   reports := reports st |} in
      match parse_latex_math math_code (negb block) with
      | inl xml => append_math st node_attributes tag clsarg math_env xml
      | inr args => syntax_error st node_attributes math_code args
      end
  end.

(** The message of the report for an unsupported format. *)
Definition unsupported_message (math_output : string) : string :=
  "math-output format " ++ dq ++ math_output ++ dq
  ++ " not supported falling back to " ++ dq ++ "latex" ++ dq.

(** The first statement of [visit_math] for an unsupported format: the
    error is reported and [self.math_output] becomes ['latex']. *)
Definition fall_back (st : state) : state :=
  {| math_output := "latex";
     math_output_options := math_output_options st;
     math_header := math_header st;
     mathjax_url := mathjax_url st;
     doctype := doctype st;
     body := body st;
     reports := append (reports st)
                  (unsupported_message (math_output st)) |}.

(** [HTMLTranslator.visit_math(node, math_env)]; [astext] is
    [node.astext()]. *)
Definition visit_math (st : state) (node_attributes : dict)
  (astext math_env : string) : signal state :=
  match mode_of (math_output st) with
  | Some m => render m st node_attributes astext math_env
  | None => render LaTeX (fall_back st) node_attributes astext math_env
  end.

End Dispatch.

End Math.

(** ** The traversal

    [Writer.translate] runs [self.document.walkabout(visitor)].  The model
    below follows docutils' [Node.walkabout]: [dispatch_visit], then the
    children in order, then [dispatch_departure]; a [SkipNode] raised by the
    visit method ends the node at once, without children and without
    departure (the writer says so itself: [depart_math] is "never reached",
    and [comment], [raw] and [substitution_definition] have no [depart_]
    method at all).  [SkipNode] is the only traversal signal the writer
    raises.

    The handlers are projected on the state that steers the traversal: the
    [context] stack, [in_mailto] and [math_output].  The text appended to the
    buffers is the subject of the modules above; a handler that could fail
    while it formats text is taken to succeed, so every run of the writer
    that completes is a run of the model that completes. *)

Module Walk.
Import Text Emitter.

(** What the writer pushes on [self.context]: a closing tag (or another
    piece of text), the saved pair [(compact_simple, compact_p)], or the
    length of [body].  The model keeps the shape of a frame. *)
Inductive frame : Type :=
| ClosingTag
| SavedFlags
| BodyLength.

(** The position of a node: the child indices from the root. *)
Definition path : Type := list nat.

(** Ghost record of the traversal: the stack depth before a node's visit
    method runs and after its departure method has returned. *)
Inductive event : Type :=
| Enter (p : path) (depth : nat)
| Exit (p : path) (depth : nat).

Record state : Type := {
  context : list frame;
  in_mailto : bool;
  math_output : string;
  trace : list event
}.

Definition set_context (c : list frame) (st : state) : state :=
  {| context := c; in_mailto := in_mailto st;
     math_output := math_output st; trace := trace st |}.

Definition set_in_mailto (b : bool) (st : state) : state :=
  {| context := context st; in_mailto := b;
     math_output := math_output st; trace := trace st |}.

Definition set_math_output (m : string) (st : state) : state :=
  {| context := context st; in_mailto := in_mailto st;
     math_output := m; trace := trace st |}.

Definition log (e : event) (st : state) : state :=
  {| context := context st; in_mailto := in_mailto st;
     math_output := math_output st; trace := append (trace st) e |}.

(** [self.context.append(x)] *)
Definition push (f : frame) (st : state) : state :=
  set_context (f :: context st) st.

(** [self.context.pop()] *)
Definition pop (st : state) : result (frame * state) :=
  match context st with
  | [] => Raise IndexError
  | f :: c => Ok (f, set_context c st)
  end.

Definition pop_ (st : state) : result state :=
  r <- pop st ;; Ok (snd r).

(** [attribution_formats]: the suffix of the pair stored under a name (the
    prefix goes to [body] only). *)
Definition attribution_suffix (name : string) : option string :=
  if String.eqb name "dash" then Some ""
  else if String.eqb name "parentheses" then Some ")"
  else if String.eqb name "parens" then Some ")"
  else if String.eqb name "none" then Some ""
  else None.

(** [visit_reference], as far as [in_mailto] and [context] go. *)
Definition visit_reference (cfg : settings) (n : nodes.node) (st : state)
  : signal state :=
  match lookup "refuri" (nodes.attributes n) with
  | Some href =>
      if cloak_email_addresses cfg then
        match href with
        | VStr uri =>
            if startswith uri "mailto:"
            then Continue (push ClosingTag (set_in_mailto true st))
            else Continue (push ClosingTag st)
        | _ => Abort AttributeError
        end
      else Continue (push ClosingTag st)
  | None =>
      if has_key "refid" (nodes.attributes n)
      then Continue (push ClosingTag st)
      else Abort AssertionError
  end.

(** [depart_reference] *)
Definition depart_reference (st : state) : result state :=
  st <- pop_ st ;;
  Ok (set_in_mailto false st).

(** [visit_math] and [visit_math_block]: an unsupported [math_output] is
    replaced by ["latex"], and the node is skipped. *)
Definition visit_math (st : state) : signal state :=
  match Math.mode_of (math_output st) with
  | Some _ => SkipNode st
  | None => SkipNode (set_math_output "latex" st)
  end.

(** [visit_generated] *)
Definition visit_generated (n : nodes.node) (st : state) : signal state :=
  match nodes.item_list "classes" n with
  | Raise e => Abort e
  | Ok classes => if mem "sectnum" classes then SkipNode st else Continue st
  end.

Definition lift (r : result state) : signal state :=
  match r with
  | Ok st => Continue st
  | Raise e => Abort e
  end.

(** [visitor.dispatch_visit(node)]: the [visit_] method of the node's
    class. *)
Definition dispatch_visit (cfg : settings) (n : nodes.node) (st : state)
  : signal state :=
  match n with
  | nodes.Text _ => Continue st
  | nodes.Element k _ _ =>
      match k with
      | nodes.attribution =>
          match attribution_suffix (attribution cfg) with
          | Some _ => Continue (push ClosingTag st)
          | None => Abort KeyError
          end
      | nodes.bullet_list => Continue (push SavedFlags st)
      | nodes.entry | nodes.figure | nodes.image | nodes.problematic
      | nodes.target | nodes.title => Continue (push ClosingTag st)
      | nodes.footer | nodes.header => Continue (push BodyLength st)
      | nodes.reference => visit_reference cfg n st
      | nodes.tgroup => Continue (push ClosingTag st)
      | nodes.thead => lift (st <- pop_ st ;; Ok (push ClosingTag st))
      | nodes.tbody => lift (pop_ st)
      | nodes.comment | nodes.raw | nodes.substitution_definition =>
          SkipNode st
      | nodes.math | nodes.math_block => visit_math st
      | nodes.generated => visit_generated n st
      | nodes.substitution_reference | nodes.pending =>
          Abort NotImplementedError
      | _ => Continue st
      end
  end.

(** [visitor.dispatch_departure(node)]: the [depart_] method of the node's
    class; a class without one raises [NotImplementedError]. *)
Definition dispatch_departure (n : nodes.node) (st : state) : result state :=
  match n with
  | nodes.Text _ => Ok st
  | nodes.Element k _ _ =>
      match k with
      | nodes.attribution | nodes.bullet_list | nodes.entry | nodes.figure
      | nodes.footer | nodes.header | nodes.image | nodes.problematic
      | nodes.target | nodes.title => pop_ st
      | nodes.reference => depart_reference st
      | nodes.document =>
          match context st with
          | [] => Ok st
          | _ :: _ => Raise AssertionError
          end
      | nodes.comment | nodes.raw | nodes.substitution_definition
      | nodes.substitution_reference | nodes.pending =>
          Raise NotImplementedError
      | _ => Ok st
      end
  end.

(** [node.walkabout(visitor)] for the node at position [p]. *)
Fixpoint walkabout (cfg : settings) (n : nodes.node) (p : path) (st : state)
  : result state :=
  match dispatch_visit cfg n (log (Enter p (List.length (context st))) st)
  with
  | Abort e => Raise e
  | SkipNode st => Ok st
  | Continue st =>
      st <- match n with
            | nodes.Text _ => Ok st
            | nodes.Element _ _ cs =>
                (fix each (l : list nodes.node) (i : nat) (st : state)
                   : result state :=
                   match l with
                   | [] => Ok st
                   | c :: l' =>
                       st <- walkabout cfg c (append p i) st ;;
                       each l' (S i) st
                   end) cs 0 st
            end ;;
      st <- dispatch_departure n st ;;
      Ok (log (Exit p (List.length (context st))) st)
  end.

(** The children loop of [walkabout], from child number [i] on. *)
Fixpoint walk_children (cfg : settings) (l : list nodes.node) (p : path)
  (i : nat) (st : state) : result state :=
  match l with
  | [] => Ok st
  | c :: l' =>
      st <- walkabout cfg c (append p i) st ;;
      walk_children cfg l' p (S i) st
  end.

(** The translator as [HTMLTranslator.__init__] leaves it. *)
Definition initial (math_output : string) : state :=
  {| context := []; in_mailto := false; math_output := math_output;
     trace := [] |}.

(** [Writer.translate]: the traversal of the whole document. *)
Definition translate (cfg : settings) (math_output : string)
  (doc : nodes.node) : result state :=
  walkabout cfg doc [] (initial math_output).

(** *** Shapes and records used to state the properties of the traversal *)




(** The nodes whose visit method raises [SkipNode]. *)
Definition skips (n : nodes.node) : bool :=
  match n with
  | nodes.Text _ => false
  | nodes.Element k a _ =>
      match k with
      | nodes.comment | nodes.raw | nodes.substitution_definition
      | nodes.math | nodes.math_block => true
      | nodes.generated =>
          match lookup "classes" a with
          | Some (VList classes) => mem "sectnum" classes
          | _ => false
          end
      | _ => false
      end
  end.

(** The node reached from [n] along the child indices [r]; there is none
    below a node that is skipped. *)
Fixpoint reached (n : nodes.node) (r : path) : option nodes.node :=
  match r with
  | [] => Some n
  | i :: r' =>
      if skips n then None
      else match nth_error (nodes.children n) i with
           | Some c => reached c r'
           | None => None
           end
  end.

Definition path_eqb (p q : path) : bool :=
  if list_eq_dec Nat.eq_dec p q then true else false.

Definition is_enter (q : path) (e : event) : bool :=
  match e with
  | Enter p _ => path_eqb p q
  | Exit _ _ => false
  end.

Definition is_exit (q : path) (e : event) : bool :=
  match e with
  | Enter _ _ => false
  | Exit p _ => path_eqb p q
  end.

(** How often the node at [q] was entered, and left. *)
Definition enters (q : path) (tr : list event) : nat :=
  List.length (filter (is_enter q) tr).

Definition exits (q : path) (tr : list event) : nat :=
  List.length (filter (is_exit q) tr).




(** The remainder of [q] after the prefix [p], if [p] is a prefix. *)
Fixpoint strip (p q : path) : option path :=
  match p, q with
  | [], _ => Some q
  | a :: p', b :: q' => if a =? b then strip p' q' else None
  | _ :: _, [] => None
  end.

(** The steps of the traversal of [n] at position [p], as the tree alone
    determines them: [(true, q)] for the enter step of the node at [q],
    [(false, q)] for its exit step. *)
Fixpoint visits (n : nodes.node) (p : path) : list (bool * path) :=
  if skips n then [(true, p)]
  else
    (true, p)
    :: match n with
       | nodes.Text _ => []
       | nodes.Element _ _ cs =>
           (fix each (l : list nodes.node) (i : nat) : list (bool * path) :=
              match l with
              | [] => []
              | c :: l' => (visits c (append p i) ++ each l' (S i))%list
              end) cs 0
       end
    ++ [(false, p)].

Fixpoint visits_children (l : list nodes.node) (p : path) (i : nat)
  : list (bool * path) :=
  match l with
  | [] => []
  | c :: l' => (visits c (append p i) ++ visits_children l' p (S i))%list
  end.

(** An event without its depth. *)
Definition step (e : event) : bool * path :=
  match e with
  | Enter p _ => (true, p)
  | Exit p _ => (false, p)
  end.

(** The number of steps of one sort at position [q]. *)
Definition count (enter : bool) (q : path) (l : list (bool * path)) : nat :=
  List.length
    (filter (fun s => Bool.eqb (fst s) enter && path_eqb (snd s) q) l).

(** The statement proved by induction on the tree: the events that a
    traversal adds are the steps that the tree determines. *)
Definition follows (cfg : settings) (n : nodes.node) : Prop :=
  forall p st st',
    walkabout cfg n p st = Ok st' ->
    exists tr,
      trace st' = (trace st ++ tr)%list
      /\ map step tr = visits n p.

End Walk.

(** ** Occurrences in a text *)

Module Scan.
Import Text Emitter.

(** [c in s] for a character. *)
Fixpoint has_char (c : ascii) (s : string) : bool :=
  match s with
  | EmptyString => false
  | String a s' => Ascii.eqb a c || has_char c s'
  end.

(** [sub in s] *)
Fixpoint has_substring (sub s : string) : bool :=
  startswith s sub
  || match s with
     | EmptyString => false
     | String _ s' => has_substring sub s'
     end.

(** No character of the text is one of those that [encode] replaces. *)
Fixpoint plain (s : string) : bool :=
  match s with
  | EmptyString => true
  | String c s' => negb (special c) && plain s'
  end.

(** Every character of the text satisfies [f]. *)
Fixpoint all_chars (f : ascii -> bool) (s : string) : bool :=
  match s with
  | EmptyString => true
  | String c s' => f c && all_chars f s'
  end.

(** The text does not begin with a character that satisfies [f]. *)
Definition stops (f : ascii -> bool) (s : string) : bool :=
  match s with
  | EmptyString => true
  | String c _ => negb (f c)
  end.

End Scan.

(** ** The outline of the docstrings

    [HTMLTranslator] and [SimpleListChecker] describe a simple list in
    words: "list items contain either a single paragraph, a nested simple
    list, or a paragraph followed by a nested simple list". *)

Module Outline.
Import Text Emitter.

(** A bullet list or an enumerated list. *)
Definition is_list (n : nodes.node) : bool :=
  nodes.is_kind nodes.bullet_list n || nodes.is_kind nodes.enumerated_list n.

(** The lists of the outline: every child is a list item of one of the
    three sorts. *)
Fixpoint simple_shape (n : nodes.node) : bool :=
  match n with
  | nodes.Text _ => false
  | nodes.Element k _ cs =>
      match k with
      | nodes.bullet_list | nodes.enumerated_list =>
          forallb simple_shape cs
      | nodes.list_item =>
          match cs with
          | [c] =>
              nodes.is_kind nodes.paragraph c
              || (is_list c && simple_shape c)
          | [p; l] =>
              nodes.is_kind nodes.paragraph p && is_list l
              && simple_shape l
          | _ => false
          end
      | _ => false
      end
  end.

End Outline.

(** ** Comments *)

Module Comments.
Import Text Emitter.

(** [re.compile('-(?=-)').sub('- ', text)]: every dash that is followed by
    a dash gets a space behind it.  The look-ahead reads the text as it
    was, so in a run of dashes all but the last are matched. *)
Fixpoint escape_dashes (text : string) : string :=
  match text with
  | EmptyString => EmptyString
  | String c rest =>
      if Ascii.eqb c "-" && startswith rest "-"
      then String "-" (String " " (escape_dashes rest))
      else String c (escape_dashes rest)
  end.

(** [HTMLTranslator.visit_comment]: the comment is appended to [body] and
    the node is skipped. *)
Definition visit_comment (astext : string) (body : list string)
  : signal (list string) :=
  SkipNode
    (append body
       ("<!-- " ++ escape_dashes astext ++ " -->" ++ String (chr 10) "")).

End Comments.

(** ** Lengths with units *)

Module Images.
Import Text Emitter.

(** The class [[0-9.]] of the pattern. *)
Definition is_number_char (c : ascii) : bool :=
  let n := ord c in ((48 <=? n) && (n <=? 57)) || (n =? 46).

(** The class [\S]. *)
Definition is_visible (c : ascii) : bool := negb (isspace c).

(** The longest prefix of characters that satisfy [f], and the rest: what a
    greedy [f+] or [f*] takes first. *)
Fixpoint span (f : ascii -> bool) (s : string) : string * string :=
  match s with
  | EmptyString => (EmptyString, EmptyString)
  | String c s' =>
      if f c then let (a, b) := span f s' in (String c a, b)
      else (EmptyString, s)
  end.

(** [HTMLTranslator.get_value_with_unit]: [re.match(pattern, value)],
    [assert match], and the unit [px] for a value without one.  The
    pattern is a group for the number, one or more of [[0-9.]], a group
    for the unit, any number of [\S], and [$].  Both groups are greedy;
    giving back
    characters cannot make the match succeed, since a character given back
    by the second group is not a line break and one given back by the
    first is taken by the second, so the match is decided by the longest
    prefixes.  [$] matches at the end of the text and in front of a line
    break that ends it. *)
Definition get_value_with_unit (value : string) : result (string * string) :=
  let (number, rest) := span is_number_char value in
  let (unit, tail) := span is_visible rest in
  if String.eqb number "" then Raise AssertionError
  else if String.eqb tail "" || String.eqb tail (String (chr 10) "")
  then Ok (number, if String.eqb unit "" then "px" else unit)
  else Raise AssertionError.

End Images.

(** ** The parts of the output

    The translator collects the output in lists of text: [body],
    [body_prefix], [body_suffix], [header], [footer], [title] and so on.
    They are attributes of the translator object, that is, entries of its
    attribute dictionary under their names. *)

Module Parts.
Import Text Emitter.

(** The list attributes of the translator, by name. *)
Definition attrs : Type := string -> list string.

Definition upd (name : string) (v : list string) (a : attrs) : attrs :=
  fun k => if String.eqb k name then v else a k.

Record translator : Type := {
  lists : attrs;
  in_document_title : nat
}.

(** [self.<name> = v] *)
Definition assign (name : string) (v : list string) (t : translator)
  : translator :=
  {| lists := upd name v (lists t);
     in_document_title := in_document_title t |}.

(** [self.<name>.extend(v)] *)
Definition extend (name : string) (v : list string) (t : translator)
  : translator :=
  assign name (lists t name ++ v)%list t.

(** [self.<name>[:0] = v] *)
Definition insert_front (name : string) (v : list string) (t : translator)
  : translator :=
  assign name (v ++ lists t name)%list t.

Definition mark_title (n : nat) (t : translator) : translator :=
  {| lists := lists t; in_document_title := n |}.

Definition nl : string := String (chr 10) "".

(** How a handler of this module ends: it returns, it raises one of the
    exceptions of [exn], or it reads a local variable that was never
    bound. *)
Inductive outcome (A : Type) : Type :=
| Done (a : A)
| Failed (e : exn)
| Unbound (name : string).
Arguments Done {A} a.
Arguments Failed {A} e.
Arguments Unbound {A} name.

(** ['<meta charset="%s">\n'], as it stands in [html_head] *)
Definition content_type : string :=
  "<meta charset=" ++ dq ++ "%s" ++ dq ++ ">" ++ nl.

Definition body_open : string := "</head>" ++ nl ++ "<body>" ++ nl.

Definition body_close : string := "</body>" ++ nl ++ "</html>" ++ nl.

(** The lists as [HTMLTranslator.__init__] leaves them; [generator] is the
    generator tag with the version of docutils, [stylesheet] the style
    sheet references. *)
Definition initial (generator : string) (stylesheet : list string)
  : translator :=
  {| lists := fun k =>
       if String.eqb k "meta" then [generator]
       else if String.eqb k "head" then [generator]
       else if String.eqb k "stylesheet" then stylesheet
       else if String.eqb k "body_prefix" then [body_open]
       else if String.eqb k "body_suffix" then [body_close]
       else if String.eqb k "html_head" then [content_type]
       else [];
     in_document_title := 0 |}.

(** *** Headers and footers *)

(** ['<hr class="footer">\n'], ['\n</div>\n'] and
    ['\n<hr class="header"/>\n</div>\n'] *)
Definition footer_rule : string :=
  "<hr class=" ++ dq ++ "footer" ++ dq ++ ">" ++ nl.

Definition footer_end : string := nl ++ "</div>" ++ nl.

Definition header_end : string :=
  nl ++ "<hr class=" ++ dq ++ "header" ++ dq ++ "/>" ++ nl ++ "</div>" ++ nl.

(** [visit_footer] and [visit_header]: the value pushed on [context]. *)
Definition visit_footer (t : translator) : nat :=
  List.length (lists t "body").

Definition visit_header (t : translator) : nat :=
  List.length (lists t "body").

(** [depart_footer]; [start] is what [self.context.pop()] returned. *)
Definition depart_footer (in_mailto cloak : bool) (node_attributes : dict)
  (start : nat) (t : translator) : result translator :=
  tag <- starttag in_mailto cloak node_attributes "div" nl false
           [("CLASS", VStr "footer")] ;;
  let footer := ([tag; footer_rule] ++ skipn start (lists t "body"))%list in
  let footer := append footer footer_end in
  let t := extend "footer" footer t in
  let t := insert_front "body_suffix" footer t in
  Ok (assign "body" (firstn start (lists t "body")) t).

(** [depart_header] *)
Definition depart_header (in_mailto cloak : bool) (node_attributes : dict)
  (start : nat) (t : translator) : result translator :=
  tag <- starttag in_mailto cloak node_attributes "div" nl false
           [("CLASS", VStr "header")] ;;
  let header := ([tag] ++ skipn start (lists t "body"))%list in
  let header := append header header_end in
  let t := extend "body_prefix" header t in
  let t := extend "header" header t in
  Ok (assign "body" (firstn start (lists t "body")) t).

(** *** Titles and subtitles *)

(** [node[name]] for a text attribute that is joined to ['#']. *)
Definition item_text (name : string) (attributes : dict) : result string :=
  match lookup name attributes with
  | None => Raise KeyError
  | Some (VStr s) => Ok s
  | Some _ => Raise TypeError
  end.

(** [len(node.parent) >= 2 and isinstance(node.parent[1], nodes.subtitle)] *)
Definition has_subtitle (parent : nodes.node) : bool :=
  match nodes.children parent with
  | _ :: second :: _ => nodes.is_kind nodes.subtitle second
  | _ => false
  end.

(** [HTMLTranslator.visit_title]: the translator afterwards and the closing
    tag pushed on [context].  [section_level] and [initial_header_level]
    are the translator's counters. *)
Definition visit_title (in_mailto cloak : bool)
  (section_level initial_header_level : Z) (parent : nodes.node)
  (node_attributes : dict) (t : translator)
  : result (translator * string) :=
  let simple (tagname cls close_tag : string) :=
    tag <- starttag in_mailto cloak node_attributes tagname "" false
             [("CLASS", VStr cls)] ;;
    Ok (extend "body" [tag] t, close_tag) in
  if nodes.is_kind nodes.topic parent then
    simple "p" "topic-title first" ("</p>" ++ nl)
  else if nodes.is_kind nodes.sidebar parent then
    simple "p" "sidebar-title" ("</p>" ++ nl)
  else if nodes.is_kind nodes.admonition parent then
    simple "p" "admonition-title" ("</p>" ++ nl)
  else if nodes.is_kind nodes.table parent then
    tag <- starttag in_mailto cloak node_attributes "caption" "" false [] ;;
    Ok (extend "body" [tag] t, "</caption>" ++ nl)
  else if nodes.is_kind nodes.document parent then
    tag <- starttag in_mailto cloak node_attributes "h1" "" false
             [("CLASS", VStr "title")] ;;
    let t := extend "body" [tag] t in
    Ok (mark_title (List.length (lists t "body")) t, "</h1>" ++ nl)
  else if negb (nodes.is_kind nodes.section parent) then
    Raise AssertionError
  else
    let h_level :=
      str_of_Z (section_level + initial_header_level - 1) in
    let atts := if has_subtitle parent
                then [("CLASS", VStr "with-subtitle")] else [] in
    tag <- starttag in_mailto cloak node_attributes ("h" ++ h_level) ""
             false atts ;;
    let t := extend "body" [tag] t in
    if has_key "refid" node_attributes then
      refid <- item_text "refid" node_attributes ;;
      anchor <- starttag in_mailto cloak [] "a" "" false
                  [("class", VStr "toc-backref");
                   ("href", VStr ("#" ++ refid))] ;;
      Ok (extend "body" [anchor] t, "</a></h" ++ h_level ++ ">" ++ nl)
    else Ok (t, "</h" ++ h_level ++ ">" ++ nl).

(** The tail that [depart_title] and [depart_subtitle] share: when
    [in_document_title] is set, the part is cut out of [body] and all of
    [body] moves to [body_pre_docinfo] and to the part's own list. *)
Definition extract (part html_part : string) (t : translator)
  : translator :=
  if in_document_title t =? 0 then t
  else
    let t := assign part
               (skipn (in_document_title t) (removelast (lists t "body")))
               t in
    let t := mark_title 0 t in
    let t := extend "body_pre_docinfo" (lists t "body") t in
    let t := extend html_part (lists t "body") t in
    assign "body" [] t.

(** [depart_title]; [close_tag] is what [self.context.pop()] returned. *)
Definition depart_title (close_tag : string) (t : translator)
  : translator :=
  extract "title" "html_title" (extend "body" [close_tag] t).

(** [visit_subtitle]: [classes] is bound for three sorts of parent only. *)
Definition visit_subtitle (in_mailto cloak : bool) (parent : nodes.node)
  (node_attributes : dict) (t : translator) : outcome translator :=
  let emit (cls : string) (t : translator) :=
    match starttag in_mailto cloak node_attributes "p" "" false
            [("CLASS", VStr cls)] with
    | Ok tag => Done (extend "body" [tag] t)
    | Raise e => Failed e
    end in
  if nodes.is_kind nodes.sidebar parent then emit "sidebar-subtitle" t
  else if nodes.is_kind nodes.document parent then
    emit "subtitle" (mark_title (List.length (lists t "body")) t)
  else if nodes.is_kind nodes.section parent then
    emit "section-subtitle" t
  else Unbound "classes".

(** ['</p>\n'] *)
Definition paragraph_end : string := "</p>" ++ nl.

(** [depart_subtitle] *)
Definition depart_subtitle (t : translator) : translator :=
  extract "subtitle" "html_subtitle" (extend "body" [paragraph_end] t).

(** *** The document *)

(** [content_type % encoding] and [head_prefix_template % {'lang': lang}] *)
Definition meta_charset (encoding : string) : string :=
  "<meta charset=" ++ dq ++ encoding ++ dq ++ ">" ++ nl.

Definition html_open (lang : string) : string :=
  "<html lang=" ++ dq ++ lang ++ dq ++ ">" ++ nl.

Definition div_close : string := "</div>" ++ nl.

(** [HTMLTranslator.depart_document].  [doctype] and [math_output] are
    attributes of the translator, [lang] and [encoding] the settings
    [language_code] and [output_encoding]; [context_empty] is
    [not self.context]. *)
Definition depart_document (in_mailto cloak : bool) (node_attributes : dict)
  (doctype lang encoding math_output : string) (context_empty : bool)
  (t : translator) : result translator :=
  let t := extend "head_prefix" [doctype; html_open lang] t in
  let t := extend "html_prolog" [doctype] t in
  let t := insert_front "meta" [meta_charset encoding] t in
  let t := insert_front "head" [meta_charset encoding] t in
  let t := match lists t "math_header" with
           | [] => t
           | _ :: _ =>
               if String.eqb math_output "mathjax"
               then extend "head" (lists t "math_header") t
               else extend "stylesheet" (lists t "math_header") t
           end in
  let t := extend "html_head" (tl (lists t "head")) t in
  tag <- starttag in_mailto cloak node_attributes "div" nl false
           [("CLASS", VStr "document")] ;;
  let t := extend "body_prefix" [tag] t in
  let t := insert_front "body_suffix" [div_close] t in
  let t := extend "fragment" (lists t "body") t in
  let t := extend "html_body"
             (tl (lists t "body_prefix") ++ lists t "body_pre_docinfo"
              ++ lists t "docinfo" ++ lists t "body"
              ++ removelast (lists t "body_suffix"))%list t in
  if context_empty then Ok t else Raise AssertionError.

(** The part of [HTMLTranslator.astext] from [body_prefix] on. *)
Definition body_text (t : translator) : string :=
  concat_all (lists t "body_prefix" ++ lists t "body_pre_docinfo"
              ++ lists t "docinfo" ++ lists t "body"
              ++ lists t "body_suffix")%list.

(** What the handlers of the nodes inside do to the translator, as far as
    this module goes: they append to [body]. *)
Definition written (fragments : list string) (t : translator)
  : translator :=
  extend "body" fragments t.

End Parts.

(** ** Footnote and citation lists *)

Module Footnotes.
Import Text Emitter.

Definition nl : string := String (chr 10) "".

(** What the four handlers read and write: [self.in_footnote_list] and
    [self.body]. *)
Record state : Type := {
  in_footnote_list : bool;
  body : list string
}.









(** The number of list openings and of list closings among fragments. *)
Definition opened (fragments : list string) : nat :=
  List.length (filter (fun s => startswith s "<dl") fragments).


End Footnotes.

(** *** Further sample inputs *)

(** A translator in the MathJax mode, before the first formula. *)
Definition mathjax_state : Math.state :=
  {| Math.math_output := "mathjax"; Math.math_output_options := [];
     Math.math_header := []; Math.mathjax_url := "MathJax.js";
     Math.doctype := "<!DOCTYPE html>"; Math.body := [];
     Math.reports := [] |}.

(** ** Sample inputs *)

Definition label_settings : settings :=
  {| attribution := "dash"; cloak_email_addresses := false;
     compact_lists := true; compact_field_lists := true;
     footnote_references := "brackets"; footnote_backlinks := true |}.


(** A bullet list marked [open], as found inside a table of contents. *)
Definition open_list : nodes.node :=
  nodes.Element nodes.bullet_list [("classes", Emitter.VList ["open"])]
    [nodes.Element nodes.list_item [("classes", Emitter.VList [])]
       [nodes.Element nodes.paragraph [("classes", Emitter.VList [])]
          [nodes.Text "entry"]]].

(** A list item with two paragraphs, and a list made of it. *)
Definition two_paragraph_list : nodes.node :=
  nodes.Element nodes.bullet_list [("classes", Emitter.VList [])]
    [nodes.Element nodes.list_item [("classes", Emitter.VList [])]
       [nodes.Element nodes.paragraph [("classes", Emitter.VList [])]
          [nodes.Text "one"];
        nodes.Element nodes.paragraph [("classes", Emitter.VList [])]
          [nodes.Text "two"]]].

(** A translator configured with a math output the writer does not know. *)
Definition asciimath_state : Math.state :=
  {| Math.math_output := "asciimath"; Math.math_output_options := [];
     Math.math_header := []; Math.mathjax_url := "";
     Math.doctype := "<!DOCTYPE html>"; Math.body := [];
     Math.reports := [] |}.

(** A settings record with e-mail cloaking. *)
Definition cloak_settings : settings :=
  {| attribution := "dash"; cloak_email_addresses := true;
     compact_lists := true; compact_field_lists := true;
     footnote_references := "brackets"; footnote_backlinks := true |}.

Definition plain (k : nodes.kind) (cs : list nodes.node) : nodes.node :=
  nodes.Element k [("classes", Emitter.VList [])] cs.


(** A document with a comment (position [0]) before a paragraph. *)
Definition comment_document : nodes.node :=
  plain nodes.document
    [plain nodes.comment [nodes.Text "note"];
     plain nodes.paragraph [nodes.Text "text"]].

(** A link to a mail address. *)
Definition mail_reference : nodes.node :=
  nodes.Element nodes.reference
    [("classes", Emitter.VList []);
     ("refuri", Emitter.VStr "mailto:me@example.org")]
    [nodes.Text "me@example.org"].

(** * Properties *)

(** ** Escaping *)

Import Text Emitter.


Lemma encode_char_plain (c : ascii) :
  special c = false -> encode_char c = String c "".
Proof.
  unfold special, encode_char. intros H.
  repeat (apply orb_false_elim in H; destruct H as [H ?]).
  now repeat match goal with E : _ = false |- _ => rewrite E; clear E end.
Qed.


Lemma unescape_aux_encode (x : string) :
  forall fuel, String.length (encode x) <= fuel ->
               unescape_aux fuel (encode x) = x.
Proof.
  induction x as [|c x IH]; intros fuel Hl.
  - destruct fuel; reflexivity.
  - simpl in *. unfold encode_char in *.
    destruct (Ascii.eqb c amp) eqn:E1;
      [apply Ascii.eqb_eq in E1; subst c; simpl in Hl;
       destruct fuel as [|fuel]; [lia|]; cbn; f_equal; apply IH; lia|].
    destruct (Ascii.eqb c lt) eqn:E2;
      [apply Ascii.eqb_eq in E2; subst c; simpl in Hl;
       destruct fuel as [|fuel]; [lia|]; cbn; f_equal; apply IH; lia|].
    destruct (Ascii.eqb c quot) eqn:E3;
      [apply Ascii.eqb_eq in E3; subst c; simpl in Hl;
       destruct fuel as [|fuel]; [lia|]; cbn; f_equal; apply IH; lia|].
    destruct (Ascii.eqb c gt) eqn:E4;
      [apply Ascii.eqb_eq in E4; subst c; simpl in Hl;
       destruct fuel as [|fuel]; [lia|]; cbn; f_equal; apply IH; lia|].
    destruct (Ascii.eqb c at_sign) eqn:E5;
      [apply Ascii.eqb_eq in E5; subst c; simpl in Hl;
       destruct fuel as [|fuel]; [lia|]; cbn; f_equal; apply IH; lia|].
    destruct (Ascii.eqb c nbsp) eqn:E6;
      [apply Ascii.eqb_eq in E6; subst c; simpl in Hl;
       destruct fuel as [|fuel]; [lia|]; cbn; f_equal; apply IH; lia|].
    simpl in Hl. destruct fuel as [|fuel]; [lia|].
    simpl. rewrite E1. f_equal. apply IH. lia.
Qed.

(** Un-escaping undoes [encode] on every text. *)
Lemma unescape_encode (x : string) : unescape (encode x) = x.
Proof. unfold unescape. apply unescape_aux_encode. lia. Qed.



(** Outside the escaped texts the four characters are not the whole story:
    [@] and the non-breaking space are replaced as well. *)
Example encode_at_sign : no_raw "@" = true /\ encode "@" = "&#64;".
Proof. split; reflexivity. Qed.

(** ** Dictionaries *)

Lemma lookup_set (k k' : string) (v : value) (d : dict) :
  lookup k (set k' v d) = if String.eqb k k' then Some v else lookup k d.
Proof.
  induction d as [|[k0 v0] d IH]; simpl.
  - reflexivity.
  - destruct (String.eqb k' k0) eqn:E; simpl.
    + apply String.eqb_eq in E. subst k0.
      destruct (String.eqb k k'); reflexivity.
    + rewrite IH. destruct (String.eqb k k0) eqn:E0; [|reflexivity].
      apply String.eqb_eq in E0. subst k0.
      rewrite String.eqb_sym in E. now rewrite E.
Qed.








Lemma append_empty_r (s : string) : s ++ "" = s.
Proof. induction s; simpl; congruence. Qed.



(** ** Start tags *)



(** The text of a start tag with two further identifiers, both ways. *)
Example starttag_anchors_text :
  starttag false false [("ids", VList ["a"; "b"; "c"])] "div" "" false []
  = Ok ("<div id=" ++ dq ++ "a" ++ dq ++ ">"
        ++ span_anchor "b" ++ span_anchor "c")
  /\ emptytag false false [("ids", VList ["a"; "b"; "c"])] "col" "" []
     = Ok (span_anchor "b" ++ span_anchor "c"
           ++ "<col id=" ++ dq ++ "a" ++ dq ++ ">").
Proof. split; reflexivity. Qed.

(** ** Labels and back-links *)





(** One back-reference: the anchor opens in [visit_label] and closes in
    [depart_label]. *)
Example label_single_backref :
  let fn := nodes.Element nodes.citation
              [("ids", VList ["c1"]); ("backrefs", VList ["r"])] [] in
  Labels.visit_label false label_settings fn
    (nodes.Element nodes.label [] []) []
  = Ok ["<dt class=" ++ dq ++ "label" ++ dq ++ " id=" ++ dq ++ "c1" ++ dq
        ++ ">";
        "<span class=" ++ dq ++ "brackets" ++ dq ++ ">";
        "<a class=" ++ dq ++ "fn-backref" ++ dq ++ " href=" ++ dq ++ "#r"
        ++ dq ++ ">"]
  /\ Labels.depart_label label_settings fn
       (nodes.Element nodes.label [] []) []
     = Ok ["</span>"; "</a>"; Labels.label_end].
Proof. split; reflexivity. Qed.

(** ** Table cells *)


Example entry_zero_morerows_text :
  exists r,
    Tables.visit_entry false false false [None] 0 [("morerows", VInt 0)]
    = Ok r
    /\ Tables.fragment r = "<td rowspan=" ++ dq ++ "1" ++ dq ++ ">".
Proof. eexists. split; reflexivity. Qed.



(** ** Column widths *)













(** The three columns of widths 10, 20 and 3 get 30, 61 and 9 percent. *)
Example colspec_percentages_text :
  Tables.write_colspecs false false Tables.three_colspecs []
  = Ok (["<col style=" ++ dq ++ "width:30%" ++ dq ++ ">"
         ++ String (chr 10) "";
         "<col style=" ++ dq ++ "width:61%" ++ dq ++ ">"
         ++ String (chr 10) "";
         "<col style=" ++ dq ++ "width:9%" ++ dq ++ ">"
         ++ String (chr 10) ""], []).
Proof. vm_compute. reflexivity. Qed.

(** ** Compact lists *)

(** C5, as stated: inside the table of contents every node is compactable.
    A list with the class [open] is not: the explicit class is looked at
    first. *)
Lemma contents_compactable_counterexample :
  ~ (forall (cfg : settings) (n : nodes.node) (classes : list string),
        nodes.item_list "classes" n = Ok classes ->
        Compact.is_compactable cfg ["contents"] n = Ok true).
Proof.
  intros H.
  specialize (H label_settings open_list ["open"] eq_refl).
  vm_compute in H. discriminate H.
Qed.

(** C5, amended.  Inside the table of contents ([topic_classes] is
    [['contents']]) a node is compactable, whatever the classifier says,
    when it has the class [compact], or when it has no class [open] and the
    compacting of its category is enabled.  Outside, a node without the
    classes [compact] and [open] whose category is enabled is compactable
    exactly when the classifier finds it simple. *)
Theorem is_compactable_contents :
  forall (cfg : settings) (topic_classes : list string) (n : nodes.node)
         (classes : list string),
    nodes.item_list "classes" n = Ok classes ->
    (topic_classes = ["contents"] ->
     mem "compact" classes = true
     \/ (mem "open" classes = false
         /\ Compact.category_enabled cfg n = true) ->
     Compact.is_compactable cfg topic_classes n = Ok true)
    /\ (topic_classes <> ["contents"] ->
        mem "compact" classes = false ->
        mem "open" classes = false ->
        Compact.category_enabled cfg n = true ->
        Compact.is_compactable cfg topic_classes n
        = Ok (Compact.simple_list n)).
Proof.
  intros cfg topic_classes n classes Hc.
  unfold Compact.is_compactable, Compact.category_enabled.
  rewrite Hc. simpl. split.
  - intros -> [->|[Ho He]]; [reflexivity|].
    destruct (mem "compact" classes); [reflexivity|]. rewrite Ho.
    apply andb_prop in He. destruct He as [E1 E2].
    apply negb_true_iff in E1, E2. rewrite E1, E2.
    destruct (list_eq_dec string_dec ["contents"] ["contents"]);
      [reflexivity | congruence].
  - intros Ht -> -> He.
    apply andb_prop in He. destruct He as [E1 E2].
    apply negb_true_iff in E1, E2. rewrite E1, E2.
    destruct (list_eq_dec string_dec topic_classes ["contents"]);
      [contradiction | reflexivity].
Qed.

Lemma is_compactable_contents_witness :
  Compact.is_compactable label_settings ["contents"] two_paragraph_list
  = Ok true
  /\ Compact.is_compactable label_settings [] two_paragraph_list
     = Ok (Compact.simple_list two_paragraph_list).
Proof.
  destruct (is_compactable_contents label_settings ["contents"]
              two_paragraph_list [] eq_refl) as [H1 _].
  destruct (is_compactable_contents label_settings []
              two_paragraph_list [] eq_refl) as [_ H2].
  split.
  - apply H1; [reflexivity|]. right. split; reflexivity.
  - apply H2; [discriminate | reflexivity | reflexivity | reflexivity].
Defined.

(** The classifier on its own: a list whose item has two paragraphs is not
    simple, and is compact only inside the table of contents. *)
Example two_paragraphs_not_simple :
  Compact.simple_list two_paragraph_list = false
  /\ Compact.is_compactable label_settings [] two_paragraph_list = Ok false.
Proof. split; reflexivity. Qed.

(** ** Math output *)

(** A start tag that is given a class only succeeds on every node whose
    [classes] and [ids] are lists. *)
Lemma starttag_class_only (in_mailto cloak : bool) (node_attributes : dict)
  (tagname suffix cls : string) (empty : bool) (classes ids : list string) :
  get_list "classes" node_attributes = Ok classes ->
  get_list "ids" node_attributes = Ok ids ->
  exists tag,
    starttag in_mailto cloak node_attributes tagname suffix empty
      [("CLASS", VStr cls)] = Ok tag.
Proof.
  intros Hc Hi. unfold starttag.
  change (lower_keys [("CLASS", VStr cls)] []) with [("class", VStr cls)].
  unfold class_argument. cbn [lookup String.eqb Ascii.eqb Bool.eqb bind].
  rewrite Hc, Hi. simpl.
  destruct (unify_classes _ _ _) as [cs ls].
  assert (Hk : forall d, lookup "id" d = None ->
                         lookup "ids" d = None ->
                         has_key "id"
                           match cs with
                           | [] => d
                           | _ :: _ => set "class" (VStr (join " " cs)) d
                           end = false
                         /\ ids_argument
                              match cs with
                              | [] => d
                              | _ :: _ => set "class" (VStr (join " " cs)) d
                              end = Ok []).
  { intros d H1 H2. unfold has_key, ids_argument.
    destruct cs; rewrite ?lookup_set; simpl; now rewrite H1, H2. }
  destruct ls as [|l0 ls].
  - destruct (Hk [] eq_refl eq_refl) as [-> ->]. simpl.
    destruct (ids ++ [])%list; eexists; reflexivity.
  - destruct (Hk [("lang", VStr l0)] eq_refl eq_refl) as [-> ->]. simpl.
    destruct (ids ++ [])%list; eexists; reflexivity.
Qed.

(** C6.  When [math_output] is none of [mathml], [html], [mathjax] and
    [latex], [visit_math] reports the unsupported format, sets
    [math_output] to [latex] and goes on exactly as in the LaTeX mode; on a
    node with well-formed [classes] and [ids] it ends with [SkipNode], the
    regular end of every mode, not with an error.  In the traversal the
    node is then complete and the walk goes on. *)
Theorem unsupported_math_output :
  forall (uni2tex : string -> string) (math2html : bool -> string -> string)
         (parse_latex_math : string -> bool -> string + list string)
         (stylesheet_calls : list string -> list string)
         (system_message : list string -> list string)
         (error_text : list string -> string)
         (in_mailto cloak : bool) (st : Math.state)
         (node_attributes : dict) (astext math_env : string)
         (classes ids : list string),
    Math.mode_of (Math.math_output st) = None ->
    get_list "classes" node_attributes = Ok classes ->
    get_list "ids" node_attributes = Ok ids ->
    Math.visit_math uni2tex math2html parse_latex_math stylesheet_calls
      system_message error_text in_mailto cloak st node_attributes astext
      math_env
    = Math.render uni2tex math2html parse_latex_math stylesheet_calls
        system_message error_text in_mailto cloak Math.LaTeX
        (Math.fall_back st) node_attributes astext math_env
    /\ (exists st',
           Math.visit_math uni2tex math2html parse_latex_math
             stylesheet_calls system_message error_text in_mailto cloak st
             node_attributes astext math_env = SkipNode st'
           /\ Math.math_output st' = "latex"
           /\ Math.reports st'
              = (Math.reports st
                 ++ [Math.unsupported_message (Math.math_output st)])%list
           /\ exists tag,
               Math.body st'
               = (Math.body st
                  ++ tag :: encode (uni2tex astext)
                     :: (if String.eqb math_env ""
                         then ["</tt>"]
                         else [Math.nl; "</pre>"; Math.nl]))%list)
    /\ (forall (cfg : settings) (k : nodes.kind) (cs : list nodes.node)
               (p : Walk.path) (w : Walk.state),
           k = nodes.math \/ k = nodes.math_block ->
           Math.mode_of (Walk.math_output w) = None ->
           Walk.walkabout cfg (nodes.Element k node_attributes cs) p w
           = Ok (Walk.set_math_output "latex"
                   (Walk.log (Walk.Enter p
                                (List.length (Walk.context w))) w))).
Proof.
  intros uni2tex math2html parse_latex_math stylesheet_calls system_message
         error_text in_mailto cloak st node_attributes astext math_env
         classes ids Hm Hc Hi.
  split; [|split].
  - unfold Math.visit_math. now rewrite Hm.
  - unfold Math.visit_math. rewrite Hm.
    unfold Math.render, Math.append_math. simpl.
    destruct (String.eqb math_env "") eqn:Eenv; simpl.
    + destruct (starttag_class_only in_mailto cloak node_attributes "tt" ""
                  "math" false classes ids Hc Hi) as [tag ->].
      simpl. eexists. split; [reflexivity|]. simpl.
      split; [reflexivity|]. split; [reflexivity|].
      exists tag. unfold append. now rewrite <- !app_assoc.
    + destruct (starttag_class_only in_mailto cloak node_attributes "pre"
                  Math.nl "math" false classes ids Hc Hi) as [tag ->].
      simpl. eexists. split; [reflexivity|]. simpl.
      split; [reflexivity|]. split; [reflexivity|].
      exists tag. unfold append. now rewrite <- !app_assoc.
  - intros cfg k cs p w Hk Hw.
    destruct Hk as [-> | ->]; simpl; unfold Walk.visit_math; simpl;
      now rewrite Hw.
Qed.

Lemma unsupported_math_output_witness :
  exists st',
    Math.visit_math (fun s => s) (fun _ s => s) (fun s _ => inl s)
      (fun l => l) (fun l => l) (fun _ => "") false false asciimath_state
      [] "a<b" "" = SkipNode st'
    /\ Math.math_output st' = "latex"
    /\ Math.reports st'
       = ["math-output format " ++ dq ++ "asciimath" ++ dq
          ++ " not supported falling back to " ++ dq ++ "latex" ++ dq].
Proof.
  destruct (unsupported_math_output (fun s => s) (fun _ s => s)
              (fun s _ => inl s) (fun l => l) (fun l => l) (fun _ => "")
              false false asciimath_state [] "a<b" "" [] []
              eq_refl eq_refl eq_refl)
    as [_ [[st' [Hv [Hm [Hr _]]]] _]].
  exists st'. split; [exact Hv|]. split; [exact Hm|]. exact Hr.
Defined.

(** The fragments of the fallback for an inline formula. *)
Example unsupported_math_inline_text :
  Math.visit_math (fun s => s) (fun _ s => s) (fun s _ => inl s)
    (fun l => l) (fun l => l) (fun _ => "") false false asciimath_state
    [] "a<b" ""
  = SkipNode
      {| Math.math_output := "latex"; Math.math_output_options := [];
         Math.math_header := []; Math.mathjax_url := "";
         Math.doctype := "<!DOCTYPE html>";
         Math.body := ["<tt class=" ++ dq ++ "math" ++ dq ++ ">"; "a&lt;b";
                       "</tt>"];
         Math.reports :=
           ["math-output format " ++ dq ++ "asciimath" ++ dq
            ++ " not supported falling back to " ++ dq ++ "latex" ++ dq] |}.
Proof. reflexivity. Qed.

(** ** The traversal *)

(** Induction on document trees: the property holds for a node once it
    holds for all its children. *)
Lemma node_induction (P : nodes.node -> Prop) :
  (forall s, P (nodes.Text s)) ->
  (forall k a cs, Forall P cs -> P (nodes.Element k a cs)) ->
  forall n, P n.
Proof.
  intros HT HE.
  fix IH 1. intros [s|k a cs].
  - apply HT.
  - apply HE. induction cs as [|c cs IHcs]; constructor.
    + apply IH.
    + apply IHcs.
Qed.

(** [walkabout] is: visit, children, departure. *)
Lemma walkabout_unfold (cfg : settings) (n : nodes.node) (p : Walk.path)
  (st : Walk.state) :
  Walk.walkabout cfg n p st
  = match Walk.dispatch_visit cfg n
            (Walk.log (Walk.Enter p (List.length (Walk.context st))) st)
    with
    | Abort e => Raise e
    | SkipNode st1 => Ok st1
    | Continue st1 =>
        st2 <- Walk.walk_children cfg (nodes.children n) p 0 st1 ;;
        st3 <- Walk.dispatch_departure n st2 ;;
        Ok (Walk.log (Walk.Exit p (List.length (Walk.context st3))) st3)
    end.
Proof.
  destruct n as [s|k a cs]; [reflexivity|].
  cbn [Walk.walkabout nodes.children].
  destruct (Walk.dispatch_visit _ _ _) as [st1| |]; try reflexivity.
  f_equal.
  generalize 0 st1. induction cs as [|c cs IH]; intros i s1; simpl.
  - reflexivity.
  - destruct (Walk.walkabout cfg c (append p i) s1); simpl; [apply IH|].
    reflexivity.
Qed.

(** *** The mail flag *)

(** C10.  A visit method leaves [in_mailto] set only if it was set before
    or the node is a reference whose [refuri] starts with [mailto:] and
    e-mail cloaking is enabled; the departure of a reference clears the
    flag, the departure of any other node leaves it alone; hence after the
    traversal of a reference node, whether it set the flag or not, the flag
    is clear. *)
Theorem mailto_flag :
  forall (cfg : settings) (n : nodes.node),
    (forall st s,
        Walk.dispatch_visit cfg n st = Continue s
        \/ Walk.dispatch_visit cfg n st = SkipNode s ->
        Walk.in_mailto s = true ->
        Walk.in_mailto st = true
        \/ (nodes.is_kind nodes.reference n = true
            /\ cloak_email_addresses cfg = true
            /\ exists uri,
                lookup "refuri" (nodes.attributes n) = Some (VStr uri)
                /\ startswith uri "mailto:" = true))
    /\ (forall st s,
           Walk.dispatch_departure n st = Ok s ->
           Walk.in_mailto s
           = if nodes.is_kind nodes.reference n then false
             else Walk.in_mailto st)
    /\ (forall p st st',
           nodes.is_kind nodes.reference n = true ->
           Walk.walkabout cfg n p st = Ok st' ->
           Walk.in_mailto st' = false).
Proof.
  intros cfg n.
  assert (Hdep : forall st s,
             Walk.dispatch_departure n st = Ok s ->
             Walk.in_mailto s
             = if nodes.is_kind nodes.reference n then false
               else Walk.in_mailto st).
  { intros st s. destruct n as [t|k a cs]; simpl.
    - intros H. now injection H as <-.
    - unfold Walk.depart_reference, Walk.pop_, Walk.pop.
      destruct k; simpl;
        try (intros H; now injection H as <-);
        try discriminate;
        destruct (Walk.context st); simpl; try discriminate;
        intros H; now injection H as <-. }
  split; [|split; [exact Hdep|]].
  - intros st s Hv Hs. destruct n as [t|k a cs]; simpl in *.
    + destruct Hv as [Hv|Hv]; [|discriminate].
      injection Hv as <-. now left.
    + unfold Walk.visit_reference, Walk.visit_math, Walk.visit_generated,
        Walk.lift, Walk.pop_, Walk.pop in Hv.
      destruct k; simpl in Hv;
        try (destruct Hv as [Hv|Hv]; try discriminate;
             injection Hv as <-; now left);
        try (destruct (Walk.attribution_suffix _);
             destruct Hv as [Hv|Hv]; try discriminate;
             injection Hv as <-; now left);
        try (destruct (Walk.context st); simpl in Hv;
             destruct Hv as [Hv|Hv]; try discriminate;
             injection Hv as <-; now left);
        try (destruct (Math.mode_of _);
             destruct Hv as [Hv|Hv]; try discriminate;
             injection Hv as <-; now left).
      * destruct (nodes.item_list "classes" _) as [l|];
          [destruct (mem "sectnum" l)|];
          destruct Hv as [Hv|Hv]; try discriminate;
          injection Hv as <-; now left.
      * destruct (lookup "refuri" a) as [href|] eqn:Eh.
        -- destruct (cloak_email_addresses cfg) eqn:Ec.
           ++ destruct href as [uri| | |];
                try (destruct Hv as [Hv|Hv]; discriminate).
              destruct (startswith uri "mailto:") eqn:Es;
                destruct Hv as [Hv|Hv]; try discriminate;
                injection Hv as <-.
              ** right. split; [reflexivity|]. split; [reflexivity|].
                 now exists uri.
              ** now left.
           ++ destruct Hv as [Hv|Hv]; try discriminate.
              injection Hv as <-. now left.
        -- destruct (has_key "refid" a);
             destruct Hv as [Hv|Hv]; try discriminate.
           injection Hv as <-. now left.
  - intros p st st' Hk Hw. rewrite walkabout_unfold in Hw.
    destruct n as [t|k a cs]; [discriminate|].
    unfold nodes.is_kind, nodes.kind_eqb in Hk.
    destruct (nodes.kind_eq_dec nodes.reference k) as [<-|]; [|discriminate].
    simpl in Hw. unfold Walk.visit_reference in Hw.
    cbn [nodes.attributes] in Hw.
    assert (Hfin : forall s1,
               (st2 <- Walk.walk_children cfg cs p 0 s1 ;;
                st3 <- Walk.depart_reference st2 ;;
                Ok (Walk.log (Walk.Exit p
                                (List.length (Walk.context st3))) st3))
               = Ok st' -> Walk.in_mailto st' = false).
    { intros s1 H.
      destruct (Walk.walk_children cfg cs p 0 s1) as [st2|];
        [|discriminate].
      simpl in H.
      destruct (Walk.depart_reference st2) as [st3|] eqn:Ed;
        [|discriminate].
      simpl in H. injection H as <-. simpl.
      unfold Walk.depart_reference, Walk.pop_, Walk.pop in Ed.
      destruct (Walk.context st2); simpl in Ed; [discriminate|].
      now injection Ed as <-. }
    destruct (lookup "refuri" a) as [href|].
    + destruct (cloak_email_addresses cfg).
      * destruct href as [uri| | |]; try discriminate.
        destruct (startswith uri "mailto:"); now apply Hfin in Hw.
      * now apply Hfin in Hw.
    + destruct (has_key "refid" a); [|discriminate].
      now apply Hfin in Hw.
Qed.

Lemma mailto_flag_witness :
  (exists s,
      Walk.dispatch_visit cloak_settings mail_reference
        (Walk.initial "html") = Continue s
      /\ Walk.in_mailto s = true)
  /\ exists st',
      Walk.walkabout cloak_settings mail_reference [] (Walk.initial "html")
      = Ok st'
      /\ Walk.in_mailto st' = false.
Proof.
  split.
  - eexists. split; reflexivity.
  - eexists. split; [reflexivity|].
    destruct (mailto_flag cloak_settings mail_reference) as [_ [_ H]].
    eapply H; reflexivity.
Defined.

(** *** The context stack *)




Lemma kind_eqb_true (a b : nodes.kind) :
  nodes.kind_eqb a b = true -> a = b.
Proof.
  unfold nodes.kind_eqb. now destruct (nodes.kind_eq_dec a b).
Qed.









(** *** Enter and exit steps *)

Lemma visits_unfold (n : nodes.node) (p : Walk.path) :
  Walk.visits n p
  = if Walk.skips n then [(true, p)]
    else ((true, p) :: Walk.visits_children (nodes.children n) p 0
          ++ [(false, p)])%list.
Proof.
  destruct n as [t|k a cs]; [reflexivity|].
  cbn [Walk.visits nodes.children].
  destruct (Walk.skips _); [reflexivity|].
  do 2 f_equal.
  generalize 0. induction cs as [|c cs IH]; intros i; simpl.
  - reflexivity.
  - now rewrite IH.
Qed.

Lemma strip_app (p r : Walk.path) : Walk.strip p (p ++ r)%list = Some r.
Proof.
  induction p as [|a p IH]; simpl; [reflexivity|].
  now rewrite Nat.eqb_refl.
Qed.

Lemma strip_snoc (p : Walk.path) (i : nat) :
  forall q,
    Walk.strip (append p i) q
    = match Walk.strip p q with
      | Some (j :: r) => if i =? j then Some r else None
      | _ => None
      end.
Proof.
  unfold append. induction p as [|a p IH]; intros [|b q]; simpl;
    try reflexivity.
  destruct (a =? b); [apply IH | reflexivity].
Qed.

Lemma path_eqb_strip (p q : Walk.path) :
  Walk.path_eqb p q
  = match Walk.strip p q with
    | Some [] => true
    | _ => false
    end.
Proof.
  unfold Walk.path_eqb.
  destruct (list_eq_dec Nat.eq_dec p q) as [<-|Hne].
  - rewrite <- (app_nil_r p) at 2. now rewrite strip_app.
  - revert q Hne. induction p as [|a p IH]; intros [|b q] Hne; simpl;
      try reflexivity; try congruence.
    destruct (Nat.eqb_spec a b) as [<-|]; [|reflexivity].
    apply IH. congruence.
Qed.

Lemma count_app (enter : bool) (q : Walk.path) (l l' : list (bool * Walk.path)) :
  Walk.count enter q (l ++ l') = Walk.count enter q l + Walk.count enter q l'.
Proof. unfold Walk.count. now rewrite filter_app, length_app. Qed.

Lemma count_cons (enter : bool) (q : Walk.path) (s : bool * Walk.path)
  (l : list (bool * Walk.path)) :
  Walk.count enter q (s :: l)
  = (if Bool.eqb (fst s) enter && Walk.path_eqb (snd s) q then 1 else 0)
    + Walk.count enter q l.
Proof.
  unfold Walk.count. simpl.
  now destruct (Bool.eqb (fst s) enter && Walk.path_eqb (snd s) q).
Qed.

(** The steps below a node: only the child on the way to [q] contributes. *)
Lemma count_children (enter : bool) (g : nodes.node -> Walk.path -> nat)
  (cs : list nodes.node) :
  Forall (fun c => forall p q,
              Walk.count enter q (Walk.visits c p)
              = match Walk.strip p q with
                | Some r => g c r
                | None => 0
                end) cs ->
  forall p i q,
    Walk.count enter q (Walk.visits_children cs p i)
    = match Walk.strip p q with
      | Some (j :: r) =>
          if i <=? j then
            match nth_error cs (j - i) with
            | Some c => g c r
            | None => 0
            end
          else 0
      | _ => 0
      end.
Proof.
  induction 1 as [|c cs Hc _ IH]; intros p i q; simpl.
  - destruct (Walk.strip p q) as [[|j r]|]; try reflexivity.
    destruct (i <=? j); [|reflexivity]. now destruct (j - i).
  - rewrite count_app, Hc, IH, strip_snoc.
    destruct (Walk.strip p q) as [[|j r]|]; try reflexivity.
    destruct (Nat.eqb_spec i j) as [<-|Hne].
    + rewrite Nat.leb_refl, Nat.sub_diag.
      destruct (Nat.leb_spec (S i) i); [lia|]. cbn [nth_error]. lia.
    + destruct (Nat.leb_spec i j) as [Hle|Hgt].
      * destruct (Nat.leb_spec (S i) j); [|lia].
        replace (j - i) with (S (j - S i)) by lia. reflexivity.
      * destruct (Nat.leb_spec (S i) j); [lia|]. reflexivity.
Qed.

Lemma reached_cons (n : nodes.node) (i : nat) (r : Walk.path) :
  Walk.reached n (i :: r)
  = if Walk.skips n then None
    else match nth_error (nodes.children n) i with
         | Some c => Walk.reached c r
         | None => None
         end.
Proof. reflexivity. Qed.

(** Every node that is reached is entered once. *)
Lemma count_enters (n : nodes.node) :
  forall p q,
    Walk.count true q (Walk.visits n p)
    = match Walk.strip p q with
      | Some r => match Walk.reached n r with Some _ => 1 | None => 0 end
      | None => 0
      end.
Proof.
  induction n as [t|k a cs IH] using node_induction; intros p q;
    rewrite visits_unfold.
  - simpl. rewrite !count_cons. simpl. rewrite path_eqb_strip.
    destruct (Walk.strip p q) as [[|j r]|]; try reflexivity.
    now destruct j.
  - set (n := nodes.Element k a cs).
    pose proof (count_children true
                  (fun c r => match Walk.reached c r with
                              | Some _ => 1 | None => 0 end)
                  cs IH p 0 q) as Hch.
    destruct (Walk.skips n) eqn:Es.
    + rewrite count_cons. cbn [fst snd Bool.eqb andb].
      rewrite path_eqb_strip.
      destruct (Walk.strip p q) as [[|j r]|]; try reflexivity.
      rewrite reached_cons, Es. reflexivity.
    + rewrite count_cons, count_app, count_cons.
      cbn [fst snd Bool.eqb andb].
      change (nodes.children n) with cs. rewrite Hch, path_eqb_strip.
      destruct (Walk.strip p q) as [[|j r]|]; try reflexivity.
      rewrite reached_cons, Es. change (nodes.children n) with cs.
      rewrite Nat.sub_0_r. cbn [Nat.leb].
      destruct (nth_error cs j); cbn; lia.
Qed.

(** Every node that is reached and not skipped is left once. *)
Lemma count_exits (n : nodes.node) :
  forall p q,
    Walk.count false q (Walk.visits n p)
    = match Walk.strip p q with
      | Some r =>
          match Walk.reached n r with
          | Some m => if Walk.skips m then 0 else 1
          | None => 0
          end
      | None => 0
      end.
Proof.
  induction n as [t|k a cs IH] using node_induction; intros p q;
    rewrite visits_unfold.
  - simpl. rewrite !count_cons. simpl. rewrite path_eqb_strip.
    destruct (Walk.strip p q) as [[|j r]|]; try reflexivity.
    now destruct j.
  - set (n := nodes.Element k a cs).
    pose proof (count_children false
                  (fun c r => match Walk.reached c r with
                              | Some m => if Walk.skips m then 0 else 1
                              | None => 0 end)
                  cs IH p 0 q) as Hch.
    destruct (Walk.skips n) eqn:Es.
    + rewrite count_cons. cbn [fst snd Bool.eqb andb].
      destruct (Walk.strip p q) as [[|j r]|]; try reflexivity.
      * cbn [Walk.reached]. now rewrite Es.
      * rewrite reached_cons, Es. reflexivity.
    + rewrite count_cons, count_app, count_cons.
      cbn [fst snd Bool.eqb andb].
      change (nodes.children n) with cs. rewrite Hch, path_eqb_strip.
      destruct (Walk.strip p q) as [[|j r]|]; try reflexivity.
      * cbn [Walk.reached]. now rewrite Es.
      * rewrite reached_cons, Es. change (nodes.children n) with cs.
        rewrite Nat.sub_0_r. cbn [Nat.leb].
        destruct (nth_error cs j); cbn; lia.
Qed.

Lemma visit_trace (cfg : settings) (n : nodes.node) (st s : Walk.state) :
  (Walk.dispatch_visit cfg n st = Continue s ->
   Walk.trace s = Walk.trace st /\ Walk.skips n = false)
  /\ (Walk.dispatch_visit cfg n st = SkipNode s ->
      Walk.trace s = Walk.trace st /\ Walk.skips n = true).
Proof.
  destruct n as [t|k a cs]; simpl.
  - split; [|discriminate]. intros H. now injection H as <-.
  - unfold Walk.visit_reference, Walk.visit_math, Walk.visit_generated,
      Walk.lift, Walk.pop_, Walk.pop, nodes.item_list.
    destruct k; cbn;
      try (split; [intros H; injection H as <-; split; reflexivity
                  | discriminate]);
      try (split; [discriminate
                  | intros H; injection H as <-; split; reflexivity]);
      try (split; discriminate).
    + destruct (Walk.attribution_suffix _);
        (split; [intros H; try discriminate; injection H as <-;
                 split; reflexivity | discriminate]).
    + destruct (lookup "classes" a) as [[s0|z|l|]|];
        try (split; discriminate).
      destruct (mem "sectnum" l);
        [split; [discriminate
                | intros H; injection H as <-; split; reflexivity]
        |split; [intros H; injection H as <-; split; reflexivity
                | discriminate]].
    + destruct (Math.mode_of _);
        (split; [discriminate
                | intros H; injection H as <-; split; reflexivity]).
    + destruct (Math.mode_of _);
        (split; [discriminate
                | intros H; injection H as <-; split; reflexivity]).
    + destruct (lookup "refuri" a) as [href|].
      * destruct (cloak_email_addresses cfg).
        -- destruct href as [uri| | |]; try (split; discriminate).
           destruct (startswith uri "mailto:");
             (split; [intros H; injection H as <-; split; reflexivity
                     | discriminate]).
        -- split; [intros H; injection H as <-; split; reflexivity
                  | discriminate].
      * destruct (has_key "refid" a);
          (split; [intros H; try discriminate; injection H as <-;
                   split; reflexivity | discriminate]).
    + destruct (Walk.context st); cbn;
        (split; [intros H; try discriminate; injection H as <-;
                 split; reflexivity | discriminate]).
    + destruct (Walk.context st); cbn;
        (split; [intros H; try discriminate; injection H as <-;
                 split; reflexivity | discriminate]).
Qed.

Lemma depart_trace (n : nodes.node) (st s : Walk.state) :
  Walk.dispatch_departure n st = Ok s -> Walk.trace s = Walk.trace st.
Proof.
  destruct n as [t|k a cs]; simpl.
  - intros H. now injection H as <-.
  - unfold Walk.depart_reference, Walk.pop_, Walk.pop.
    destruct k; cbn;
      try (intros H; injection H as <-; reflexivity);
      try discriminate;
      destruct (Walk.context st); cbn; try discriminate;
      intros H; injection H as <-; reflexivity.
Qed.

Lemma children_follow (cfg : settings) (cs : list nodes.node) :
  Forall (Walk.follows cfg) cs ->
  forall p i st st',
    Walk.walk_children cfg cs p i st = Ok st' ->
    exists tr,
      Walk.trace st' = (Walk.trace st ++ tr)%list
      /\ map Walk.step tr = Walk.visits_children cs p i.
Proof.
  induction 1 as [|c cs Hc _ IH]; intros p i st st' Hrun; simpl in *.
  - injection Hrun as <-. exists []. split; [now rewrite app_nil_r|].
    reflexivity.
  - destruct (Walk.walkabout cfg c (append p i) st) as [s1|] eqn:E1;
      [|discriminate].
    cbn [bind] in Hrun.
    destruct (Hc _ _ _ E1) as [tr1 [Ht1 Hm1]].
    destruct (IH _ _ _ _ Hrun) as [tr2 [Ht2 Hm2]].
    exists (tr1 ++ tr2)%list. split.
    + now rewrite Ht2, Ht1, app_assoc.
    + now rewrite map_app, Hm1, Hm2.
Qed.

Lemma walk_follows (cfg : settings) : forall n, Walk.follows cfg n.
Proof.
  induction n as [t|k a cs IH] using node_induction;
    intros p st st' Hrun; rewrite walkabout_unfold in Hrun;
    rewrite visits_unfold.
  - simpl in Hrun. injection Hrun as Hst. subst st'. simpl.
    eexists. split; [unfold append; rewrite <- app_assoc; reflexivity|].
    reflexivity.
  - set (n := nodes.Element k a cs) in *.
    set (st0 := Walk.log _ st) in Hrun.
    assert (H0 : Walk.trace st0
                 = (Walk.trace st
                    ++ [Walk.Enter p (List.length (Walk.context st))])%list)
      by reflexivity.
    destruct (Walk.dispatch_visit cfg n st0) as [s1|s1|e] eqn:Ev;
      [| |discriminate].
    + destruct (proj1 (visit_trace cfg n st0 s1) Ev) as [Ht1 Hs].
      rewrite Hs.
      cbn [nodes.children n] in Hrun |- *.
      destruct (Walk.walk_children cfg cs p 0 s1) as [s2|] eqn:Ec;
        [|discriminate].
      cbn [bind] in Hrun.
      destruct (Walk.dispatch_departure n s2) as [s3|] eqn:Ed;
        [|discriminate].
      cbn [bind] in Hrun. injection Hrun as <-.
      destruct (children_follow cfg cs IH p 0 s1 s2 Ec) as [tr [Ht2 Hm]].
      apply depart_trace in Ed.
      exists (Walk.Enter p (List.length (Walk.context st)) :: tr
              ++ [Walk.Exit p (List.length (Walk.context s3))])%list.
      split.
      * cbn [Walk.log Walk.trace]. unfold append.
        rewrite Ed, Ht2, Ht1, H0. now rewrite <- !app_assoc.
      * cbn [map Walk.step]. now rewrite map_app, Hm.
    + destruct (proj2 (visit_trace cfg n st0 s1) Ev) as [Ht1 Hs].
      rewrite Hs.
      injection Hrun as <-.
      exists [Walk.Enter p (List.length (Walk.context st))].
      split; [now rewrite Ht1, H0 | reflexivity].
Qed.

Lemma enters_count (q : Walk.path) (tr : list Walk.event) :
  Walk.enters q tr = Walk.count true q (map Walk.step tr)
  /\ Walk.exits q tr = Walk.count false q (map Walk.step tr).
Proof.
  unfold Walk.enters, Walk.exits, Walk.count.
  induction tr as [|e tr [IH1 IH2]]; simpl; [split; reflexivity|].
  destruct e as [p d|p d]; simpl;
    destruct (Walk.path_eqb p q); simpl; split; congruence.
Qed.

(** C2, as stated: a node whose visit method signals that it is complete
    still gets its exit step.  The comment in front of a paragraph does
    not: its [visit_comment] raises [SkipNode] and the traversal goes on
    with the paragraph. *)
Lemma skipped_exit_counterexample :
  ~ (forall (cfg : settings) (math_output : string) (doc : nodes.node)
            (st' : Walk.state) (r : Walk.path) (m : nodes.node),
        Walk.translate cfg math_output doc = Ok st' ->
        Walk.reached doc r = Some m ->
        Walk.enters r (Walk.trace st') = 1
        /\ Walk.exits r (Walk.trace st') = 1).
Proof.
  intros H.
  destruct (H cloak_settings "html" comment_document _ [0] _
              eq_refl eq_refl) as [_ Hx].
  vm_compute in Hx. discriminate Hx.
Qed.

(** C2, amended.  In a traversal that completes, a node is entered exactly
    once if no node above it was skipped, and not at all otherwise; it gets
    its exit step exactly once if it was entered and its own visit method
    did not signal [SkipNode].  A node that signals [SkipNode] (a math,
    comment or raw node, a substitution definition, a generated section
    number) has neither its children visited nor its exit step run. *)
Theorem visited_once :
  forall (cfg : settings) (n : nodes.node) (p : Walk.path)
         (st st' : Walk.state),
    Walk.walkabout cfg n p st = Ok st' ->
    exists tr,
      Walk.trace st' = (Walk.trace st ++ tr)%list
      /\ (forall r,
             Walk.enters (p ++ r)%list tr
             = match Walk.reached n r with Some _ => 1 | None => 0 end
             /\ Walk.exits (p ++ r)%list tr
                = match Walk.reached n r with
                  | Some m => if Walk.skips m then 0 else 1
                  | None => 0
                  end)
      /\ (forall q, Walk.strip p q = None ->
                    Walk.enters q tr = 0 /\ Walk.exits q tr = 0).
Proof.
  intros cfg n p st st' Hrun.
  destruct (walk_follows cfg n p st st' Hrun) as [tr [Ht Hm]].
  exists tr. split; [exact Ht|]. split.
  - intros r. destruct (enters_count (p ++ r)%list tr) as [-> ->].
    rewrite Hm, count_enters, count_exits, strip_app. split; reflexivity.
  - intros q Hq. destruct (enters_count q tr) as [-> ->].
    rewrite Hm, count_enters, count_exits, Hq. split; reflexivity.
Qed.

Lemma visited_once_witness :
  exists st',
    Walk.translate cloak_settings "html" comment_document = Ok st'
    /\ Walk.enters [0] (Walk.trace st') = 1
    /\ Walk.exits [0] (Walk.trace st') = 0
    /\ Walk.enters [0; 0] (Walk.trace st') = 0
    /\ Walk.enters [1] (Walk.trace st') = 1
    /\ Walk.exits [1] (Walk.trace st') = 1.
Proof.
  destruct (Walk.translate cloak_settings "html" comment_document)
    as [st'|e] eqn:E; [|vm_compute in E; discriminate E].
  exists st'. split; [reflexivity|].
  destruct (visited_once cloak_settings comment_document []
              (Walk.initial "html") st' E) as [tr [Ht [Hc _]]].
  cbn [Walk.initial Walk.trace app] in Ht. rewrite Ht.
  destruct (Hc [0]) as [H1 H2]. destruct (Hc [0; 0]) as [H3 _].
  destruct (Hc [1]) as [H4 H5].
  repeat split; assumption.
Defined.

(** * Further properties *)

(** ** Escaping and cloaking *)

Lemma has_char_app (c : ascii) (s t : string) :
  Scan.has_char c (s ++ t) = Scan.has_char c s || Scan.has_char c t.
Proof.
  induction s as [|a s IH]; simpl; [reflexivity|].
  now rewrite IH, orb_assoc.
Qed.

Lemma encode_char_clean (c d : ascii) :
  special d = true -> d <> amp -> Scan.has_char d (encode_char c) = false.
Proof.
  intros Hd Hamp. unfold encode_char.
  repeat match goal with
         | |- context [if Ascii.eqb c ?x then _ else _] =>
             destruct (Ascii.eqb_spec c x); [subst c|]
         end;
    try (unfold special in Hd;
         repeat (apply orb_prop in Hd; destruct Hd as [Hd|Hd]);
         apply Ascii.eqb_eq in Hd; subst d; try congruence; reflexivity).
  simpl. rewrite orb_false_r. apply Ascii.eqb_neq. intros ->.
  unfold special in Hd.
  repeat (apply orb_prop in Hd; destruct Hd as [Hd|Hd]);
    apply Ascii.eqb_eq in Hd; congruence.
Qed.

Lemma encode_leaves_no_markup_aux (text : string) :
  Scan.has_char lt (encode text) = false
  /\ Scan.has_char gt (encode text) = false
  /\ Scan.has_char quot (encode text) = false
  /\ Scan.has_char at_sign (encode text) = false
  /\ Scan.has_char nbsp (encode text) = false.
Proof.
  induction text as [|c text IH]; simpl.
  - repeat split; reflexivity.
  - rewrite !has_char_app.
    destruct IH as [-> [-> [-> [-> ->]]]].
    rewrite !orb_false_r.
    repeat split; apply encode_char_clean; (reflexivity || discriminate).
Qed.

(** X1.  [encode] leaves no [<], [>], double quote, [@] or non-breaking space
    in its result, whatever the text. *)
Theorem encode_leaves_no_markup :
  forall text : string,
    Scan.has_char lt (encode text) = false
    /\ Scan.has_char gt (encode text) = false
    /\ Scan.has_char quot (encode text) = false
    /\ Scan.has_char at_sign (encode text) = false
    /\ Scan.has_char nbsp (encode text) = false.
Proof. exact encode_leaves_no_markup_aux. Qed.

Lemma length_append (s t : string) :
  String.length (s ++ t) = String.length s + String.length t.
Proof. induction s as [|a s IH]; simpl; [reflexivity|]. now rewrite IH. Qed.

Lemma encode_app (s t : string) : encode (s ++ t) = encode s ++ encode t.
Proof.
  induction s as [|c s IH]; simpl; [reflexivity|].
  rewrite IH. 
  generalize (encode_char c) as e. intros e.
  induction e as [|a e IHe]; simpl; [reflexivity|]. now rewrite IHe.
Qed.

Lemma concat_all_app (l l' : list string) :
  concat_all (l ++ l') = concat_all l ++ concat_all l'.
Proof.
  induction l as [|s l IH]; simpl; [reflexivity|].
  rewrite IH. 
  induction s as [|a s IHs]; simpl; [reflexivity|]. now rewrite IHs.
Qed.

(** X2.  Encoding a text piece by piece and joining the results gives the
    encoding of the whole text: the fragments that the handlers append to
    [body] one by one are the encoding of the concatenated text. *)
Theorem encode_pieces :
  forall pieces : list string,
    encode (concat_all pieces) = concat_all (map encode pieces).
Proof.
  induction pieces as [|s l IH]; simpl; [reflexivity|].
  now rewrite encode_app, IH.
Qed.

(** X3.  [encode] loses nothing: different texts have different encodings. *)
Theorem encode_injective :
  forall s t : string, encode s = encode t -> s = t.
Proof.
  intros s t H.
  rewrite <- (unescape_encode s), <- (unescape_encode t). now rewrite H.
Qed.

Lemma encode_injective_witness :
  encode "a<b" = encode "a<b" /\ "a<b" = "a<b".
Proof.
  split; [reflexivity|]. apply (encode_injective "a<b" "a<b"). reflexivity.
Defined.

Lemma encode_char_length (c : ascii) :
  1 <= String.length (encode_char c)
  /\ (special c = true -> 2 <= String.length (encode_char c)).
Proof.
  unfold encode_char, special.
  destruct (Ascii.eqb c amp); [simpl; lia|].
  destruct (Ascii.eqb c lt); [simpl; lia|].
  destruct (Ascii.eqb c quot); [simpl; lia|].
  destruct (Ascii.eqb c gt); [simpl; lia|].
  destruct (Ascii.eqb c at_sign); [simpl; lia|].
  destruct (Ascii.eqb c nbsp); [simpl; lia|].
  simpl. split; [lia | discriminate].
Qed.

Lemma encode_length (s : string) :
  String.length s <= String.length (encode s).
Proof.
  induction s as [|c s IH]; simpl; [lia|].
  rewrite length_append. pose proof (proj1 (encode_char_length c)). lia.
Qed.

(** X4.  [encode] returns a text unchanged exactly when the text holds none of
    the six characters it replaces. *)
Theorem encode_unchanged_iff :
  forall text : string, encode text = text <-> Scan.plain text = true.
Proof.
  intros text. split.
  - induction text as [|c text IH]; simpl; [reflexivity|].
    destruct (special c) eqn:E.
    + intros H. exfalso.
      assert (Hlen : String.length (encode_char c ++ encode text)
                     = S (String.length text)) by now rewrite H.
      rewrite length_append in Hlen.
      pose proof (encode_length text).
      pose proof (proj2 (encode_char_length c) E). lia.
    + rewrite (encode_char_plain c E). simpl. intros H.
      injection H as H. auto.
  - induction text as [|c text IH]; simpl; [reflexivity|].
    intros H. apply andb_prop in H. destruct H as [Hc H].
    apply negb_true_iff in Hc.
    rewrite (encode_char_plain c Hc). simpl. now rewrite IH.
Qed.

Lemma strip_prefix_has_char (c : ascii) (p : string) :
  forall s rest,
    strip_prefix p s = Some rest ->
    Scan.has_char c s = false -> Scan.has_char c rest = false.
Proof.
  induction p as [|a p IH]; intros s rest H Hs; simpl in H.
  - now injection H as <-.
  - destruct s as [|b s]; [discriminate|].
    destruct (Ascii.eqb a b); [|discriminate].
    simpl in Hs. apply orb_false_elim in Hs. destruct Hs as [_ Hs].
    eauto.
Qed.

(** A replacement brings in no character that neither the text nor the
    new piece holds. *)
Lemma replace_aux_keeps_out (c : ascii) (old new : string) :
  Scan.has_char c new = false ->
  forall fuel s,
    Scan.has_char c s = false ->
    Scan.has_char c (replace_aux fuel old new s) = false.
Proof.
  intros Hnew. induction fuel as [|fuel IH]; intros s Hs; simpl;
    [exact Hs|].
  destruct (strip_prefix old s) as [rest|] eqn:E.
  - rewrite has_char_app, Hnew. simpl. apply IH.
    eapply strip_prefix_has_char; eassumption.
  - destruct s as [|b s]; [reflexivity|].
    simpl in *. apply orb_false_elim in Hs. destruct Hs as [-> Hs].
    simpl. auto.
Qed.

(** Replacing a character by a piece without it removes it everywhere. *)
Lemma replace_aux_removes (c : ascii) (new : string) :
  Scan.has_char c new = false ->
  forall fuel s,
    String.length s <= fuel ->
    Scan.has_char c (replace_aux fuel (String c "") new s) = false.
Proof.
  intros Hnew. induction fuel as [|fuel IH]; intros s Hl.
  - destruct s; [reflexivity | simpl in Hl; lia].
  - destruct s as [|b s]; [reflexivity|].
    simpl in Hl. cbn [replace_aux strip_prefix].
    destruct (Ascii.eqb c b) eqn:E.
    + rewrite has_char_app, Hnew. simpl. apply IH. lia.
    + simpl. rewrite Ascii.eqb_sym, E. simpl. apply IH. lia.
Qed.

Lemma replace_aux_absent (c : ascii) (new : string) :
  forall fuel s,
    Scan.has_char c s = false ->
    replace_aux fuel (String c "") new s = s.
Proof.
  induction fuel as [|fuel IH]; intros s Hs; [reflexivity|].
  destruct s as [|b s]; [reflexivity|].
  simpl in Hs. apply orb_false_elim in Hs. destruct Hs as [Hb Hs].
  cbn [replace_aux strip_prefix]. rewrite Ascii.eqb_sym, Hb.
  now rewrite IH.
Qed.

(** X5.  [cloak_mailto] leaves no [@] in the address, and an address without
    [@] is returned as it is. *)
Theorem cloak_mailto_hides_at_sign :
  forall uri : string,
    Scan.has_char at_sign (cloak_mailto uri) = false
    /\ (Scan.has_char at_sign uri = false -> cloak_mailto uri = uri).
Proof.
  intros uri. split.
  - apply (replace_aux_removes at_sign "%40"); [reflexivity | lia].
  - intros H. now apply (replace_aux_absent at_sign "%40").
Qed.

Lemma cloak_mailto_hides_at_sign_witness :
  cloak_mailto "mailto:nobody" = "mailto:nobody".
Proof.
  apply (proj2 (cloak_mailto_hides_at_sign "mailto:nobody")). reflexivity.
Defined.

Lemma encode_char_keeps_out (c d : ascii) :
  Scan.has_char d "&amp;&lt;&quot;&gt;&#64;&nbsp;" = false ->
  Scan.has_char d (encode_char c) = Ascii.eqb c d && negb (special c).
Proof.
  intros Hd. 
  destruct (special c) eqn:E.
  - rewrite andb_false_r. unfold special in E. unfold encode_char.
    simpl in Hd.
    repeat (apply orb_false_elim in Hd; destruct Hd as [? Hd]).
    destruct (Ascii.eqb c amp);
      [simpl; now repeat match goal with H : _ = false |- _ =>
                                          rewrite H; clear H end|].
    destruct (Ascii.eqb c lt);
      [simpl; now repeat match goal with H : _ = false |- _ =>
                                          rewrite H; clear H end|].
    destruct (Ascii.eqb c quot);
      [simpl; now repeat match goal with H : _ = false |- _ =>
                                          rewrite H; clear H end|].
    destruct (Ascii.eqb c gt);
      [simpl; now repeat match goal with H : _ = false |- _ =>
                                          rewrite H; clear H end|].
    destruct (Ascii.eqb c at_sign);
      [simpl; now repeat match goal with H : _ = false |- _ =>
                                          rewrite H; clear H end|].
    destruct (Ascii.eqb c nbsp);
      [simpl; now repeat match goal with H : _ = false |- _ =>
                                          rewrite H; clear H end|].
    discriminate.
  - rewrite (encode_char_plain c E). simpl. now rewrite orb_false_r, andb_true_r.
Qed.

Lemma encode_keeps_out (d : ascii) (s : string) :
  Scan.has_char d "&amp;&lt;&quot;&gt;&#64;&nbsp;" = false ->
  Scan.has_char d s = false -> Scan.has_char d (encode s) = false.
Proof.
  intros Hd. induction s as [|c s IH]; simpl; [reflexivity|].
  intros H. apply orb_false_elim in H. destruct H as [Hc H].
  rewrite has_char_app, (encode_char_keeps_out c d Hd), Hc, IH by exact H.
  reflexivity.
Qed.

Lemma sub_whitespace_clean (d : ascii) (s : string) :
  attval_whitespace d = true -> Scan.has_char d (sub_whitespace s) = false.
Proof.
  intros Hd. induction s as [|c s IH]; simpl; [reflexivity|].
  rewrite IH, orb_false_r.
  destruct (attval_whitespace c) eqn:E.
  - apply Ascii.eqb_neq. intros <-. discriminate Hd.
  - apply Ascii.eqb_neq. intros ->. congruence.
Qed.

Lemma whitespace_not_in_references (d : ascii) :
  attval_whitespace d = true ->
  Scan.has_char d "&amp;&lt;&quot;&gt;&#64;&nbsp;&#37;&#52;&#48;&#46;" = false.
Proof.
  destruct d as [[] [] [] [] [] [] [] []]; try discriminate; reflexivity.
Qed.

(** X6.  An attribute value cleansed by [attval] cannot end the attribute or the
    tag, in either mode: it holds no double quote, no [<] or [>], no [@],
    and none of the line breaks and tabs that the pattern replaces.
    Inside a mail link with cloaking switched on it holds no period
    either. *)
Theorem attval_is_clean :
  forall (in_mailto cloak : bool) (text : string),
    Scan.has_char quot (attval in_mailto cloak text) = false
    /\ Scan.has_char lt (attval in_mailto cloak text) = false
    /\ Scan.has_char gt (attval in_mailto cloak text) = false
    /\ Scan.has_char at_sign (attval in_mailto cloak text) = false
    /\ Scan.has_char "." (attval true true text) = false
    /\ (forall d : ascii,
           attval_whitespace d = true ->
           Scan.has_char d (attval in_mailto cloak text) = false).
Proof.
  intros in_mailto cloak text.
  assert (Hdot : Scan.has_char "." (attval true true text) = false).
  { unfold attval. cbn [andb]. unfold replace.
    apply (replace_aux_removes "." "&#46;"); [reflexivity | lia]. }
  unfold attval in *.
  destruct (encode_leaves_no_markup_aux (sub_whitespace text))
    as [Hlt [Hgt [Hq [Hat _]]]].
  assert (Hw : forall d, attval_whitespace d = true ->
               Scan.has_char d (encode (sub_whitespace text)) = false).
  { intros d Hd. apply encode_keeps_out.
    - pose proof (whitespace_not_in_references d Hd) as H.
      revert H.
      change "&amp;&lt;&quot;&gt;&#64;&nbsp;&#37;&#52;&#48;&#46;"
        with ("&amp;&lt;&quot;&gt;&#64;&nbsp;" ++ "&#37;&#52;&#48;&#46;").
      rewrite has_char_app. intros H.
      now apply orb_false_elim in H.
    - now apply sub_whitespace_clean. }
  destruct (in_mailto && cloak); unfold replace.
  - repeat split;
      try (apply replace_aux_keeps_out; [reflexivity|];
           apply replace_aux_keeps_out; [reflexivity|]; assumption);
      try exact Hdot.
    intros d Hd.
    pose proof (whitespace_not_in_references d Hd) as H.
    apply replace_aux_keeps_out.
    { revert H. clear. simpl. intros H.
      repeat (apply orb_false_elim in H; destruct H as [? H]).
      now repeat match goal with E : _ = false |- _ =>
                                   rewrite E; clear E end. }
    apply replace_aux_keeps_out; [|now apply Hw].
    revert H. clear. simpl. intros H.
    repeat (apply orb_false_elim in H; destruct H as [? H]).
    now repeat match goal with E : _ = false |- _ =>
                                 rewrite E; clear E end.
  - repeat split; try assumption.
Qed.

Lemma attval_is_clean_witness :
  Scan.has_char (chr 10)
    (attval false false ("two" ++ String (chr 10) "lines")) = false.
Proof.
  apply (proj2 (proj2 (proj2 (proj2 (proj2
           (attval_is_clean false false
              ("two" ++ String (chr 10) "lines"))))))).
  reflexivity.
Defined.


(** ** Start tags: classes, letter case, failures *)

Lemma mem_In (x : string) (l : list string) : mem x l = true <-> In x l.
Proof.
  induction l as [|y l IH]; simpl.
  - split; [discriminate | tauto].
  - rewrite orb_true_iff, String.eqb_eq, IH. intuition congruence.
Qed.

Lemma unify_classes_spec (l : list string) :
  forall classes languages cs ls,
    unify_classes l classes languages = (cs, ls) ->
    NoDup classes ->
    NoDup cs
    /\ (forall c, In c cs <->
                  In c classes
                  \/ (In c l /\ startswith c "language-" = false
                      /\ all_space c = false))
    /\ (forall x, In x ls <->
                  In x languages
                  \/ exists c, In c l
                               /\ strip_prefix "language-" c = Some x).
Proof.
  induction l as [|cls l IH]; intros classes languages cs ls H Hnd.
  - injection H as <- <-. split; [exact Hnd|]. split.
    + intros c. cbn [In]. tauto.
    + intros x. cbn [In]. split; [tauto|]. intros [H|[c [[] _]]]. exact H.
  - cbn [unify_classes] in H. unfold startswith.
    destruct (strip_prefix "language-" cls) as [rest|] eqn:E.
    + destruct (IH _ _ _ _ H Hnd) as [H1 [H2 H3]].
      split; [exact H1|]. split.
      * intros c. rewrite H2. cbn [In]. split.
        -- intros [Hc|[Hc Hr]]; [now left|]. right. tauto.
        -- intros [Hc|[[->|Hc] [Hs Hb]]]; [now left| |right; tauto].
           rewrite E in Hs. discriminate.
      * intros x. rewrite H3, in_app_iff. cbn [In]. split.
        -- intros [[Hx|[<-|[]]]|[c [Hc Hs]]].
           ++ now left.
           ++ right. exists cls. tauto.
           ++ right. exists c. tauto.
        -- intros [Hx|[c [[<-|Hc] Hs]]].
           ++ left. now left.
           ++ left. right. left. congruence.
           ++ right. exists c. tauto.
    + destruct (negb (all_space cls) && negb (mem cls classes)) eqn:Eb.
      * apply andb_prop in Eb. destruct Eb as [Hsp Hm].
        apply negb_true_iff in Hsp, Hm.
        assert (Hnd' : NoDup (classes ++ [cls])).
        { apply NoDup_app; [exact Hnd | repeat constructor; intros []|].
          intros x Hx [<-|[]]. apply mem_In in Hx. congruence. }
        destruct (IH _ _ _ _ H Hnd') as [H1 [H2 H3]].
        split; [exact H1|]. split.
        -- intros c. rewrite H2, in_app_iff. cbn [In]. split.
           ++ intros [[Hc|[<-|[]]]|[Hc Hr]].
              ** now left.
              ** right. rewrite E. tauto.
              ** right. tauto.
           ++ intros [Hc|[[->|Hc] Hr]].
              ** left. now left.
              ** left. right. now left.
              ** right. tauto.
        -- intros x. rewrite H3. cbn [In]. split.
           ++ intros [Hx|[c [Hc Hs]]]; [now left|].
              right. exists c. tauto.
           ++ intros [Hx|[c [[<-|Hc] Hs]]]; [now left| |].
              ** congruence.
              ** right. exists c. tauto.
      * destruct (IH _ _ _ _ H Hnd) as [H1 [H2 H3]].
        split; [exact H1|]. split.
        -- intros c. rewrite H2. cbn [In]. split.
           ++ intros [Hc|[Hc Hr]]; [now left | right; tauto].
           ++ intros [Hc|[[->|Hc] [Hs Hb]]]; [now left| |right; tauto].
              rewrite Hb in Eb. cbn [negb andb] in Eb.
              apply negb_false_iff in Eb. apply mem_In in Eb. now left.
        -- intros x. rewrite H3. cbn [In]. split.
           ++ intros [Hx|[c [Hc Hs]]]; [now left|].
              right. exists c. tauto.
           ++ intros [Hx|[c [[<-|Hc] Hs]]]; [now left| |].
              ** congruence.
              ** right. exists c. tauto.
Qed.

(** X8.  The class names that [starttag] writes: every name of the node and of
    the class argument that is not blank and does not start with
    [language-], each once; the names that start with [language-] give the
    languages instead, without the prefix. *)
Theorem classes_unified :
  forall (names cs ls : list string),
    unify_classes names [] [] = (cs, ls) ->
    NoDup cs
    /\ (forall c, In c cs <->
                  In c names /\ startswith c "language-" = false
                  /\ all_space c = false)
    /\ (forall x, In x ls <->
                  exists c, In c names
                            /\ strip_prefix "language-" c = Some x).
Proof.
  intros names cs ls H.
  destruct (unify_classes_spec names [] [] cs ls H (NoDup_nil _))
    as [H1 [H2 H3]].
  split; [exact H1|]. split.
  - intros c. rewrite H2. simpl. tauto.
  - intros x. rewrite H3. simpl. tauto.
Qed.

Lemma classes_unified_witness :
  NoDup ["a"; "b"]
  /\ (In "language-fr" ["a"; "b"] <->
      In "language-fr" ["a"; "language-fr"; "b"; "a"]
      /\ startswith "language-fr" "language-" = false
      /\ all_space "language-fr" = false)
  /\ (In "fr" ["fr"] <->
      exists c, In c ["a"; "language-fr"; "b"; "a"]
                /\ strip_prefix "language-" c = Some "fr").
Proof.
  destruct (classes_unified ["a"; "language-fr"; "b"; "a"] ["a"; "b"]
              ["fr"] eq_refl) as [H1 [H2 H3]].
  split; [exact H1|]. split; [apply H2 | apply H3].
Defined.

Lemma lower_char_idempotent (c : ascii) :
  lower_char (lower_char c) = lower_char c.
Proof.
  destruct c as [[] [] [] [] [] [] [] []]; reflexivity.
Qed.

Lemma lower_idempotent (s : string) : lower (lower s) = lower s.
Proof.
  induction s as [|c s IH]; simpl; [reflexivity|].
  now rewrite lower_char_idempotent, IH.
Qed.

Lemma lower_keys_lowered (attributes : list (string * value)) :
  forall atts,
    lower_keys (map (fun kv => (lower (fst kv), snd kv)) attributes) atts
    = lower_keys attributes atts.
Proof.
  induction attributes as [|[name v] rest IH]; intros atts; simpl;
    [reflexivity|].
  now rewrite lower_idempotent, IH.
Qed.

(** X9.  Letter case does not matter in the tag name and in the names of the
    keyword arguments: [starttag(node, 'DIV', CLASS=c)] is
    [starttag(node, 'div', class=c)]. *)
Theorem starttag_ignores_letter_case :
  forall (in_mailto cloak : bool) (node_attributes : dict)
         (tagname suffix : string) (empty : bool)
         (attributes : list (string * value)),
    starttag in_mailto cloak node_attributes (lower tagname) suffix empty
      (map (fun kv => (lower (fst kv), snd kv)) attributes)
    = starttag in_mailto cloak node_attributes tagname suffix empty
        attributes.
Proof.
  intros. unfold starttag.
  now rewrite lower_idempotent, lower_keys_lowered.
Qed.

Lemma starttag_raises (in_mailto cloak : bool) (node_attributes : dict)
  (tagname suffix : string) (empty : bool)
  (attributes : list (string * value)) (e : exn) :
  starttag in_mailto cloak node_attributes tagname suffix empty attributes
  = Raise e ->
  e = AttributeError \/ e = TypeError \/ e = AssertionError.
Proof.
  unfold starttag, class_argument, get_list, ids_argument.
  destruct (lookup "class" (lower_keys attributes [])) as [[]|];
    cbn [bind]; try (intros H; injection H as <-; tauto);
    (destruct (lookup "classes" node_attributes) as [[]|];
     cbn [bind]; try (intros H; injection H as <-; tauto);
     destruct (unify_classes _ _ _) as [classes languages];
     destruct (has_key "id" _); try (intros H; injection H as <-; tauto);
     destruct (lookup "ids" node_attributes) as [[]|];
     cbn [bind]; try (intros H; injection H as <-; tauto);
     destruct (lookup "ids" _) as [[]|];
     cbn [bind]; try (intros H; injection H as <-; tauto);
     match goal with
     | |- context [match ?l with [] => _ | _ :: _ => _ end] =>
         destruct l
     end; discriminate).
Qed.



(** ** Table cells and column specifications *)

Lemma py_index_range {A : Type} (l : list A) (i : Z) :
  (Tables.py_index l i = Raise IndexError
   <-> (i < - Z.of_nat (List.length l) \/ Z.of_nat (List.length l) <= i)%Z)
  /\ (forall e, Tables.py_index l i = Raise e -> e = IndexError)
  /\ (forall j, nth_error l j <> None ->
                Tables.py_index l (Z.of_nat j) = match nth_error l j with
                                                | Some x => Ok x
                                                | None => Raise IndexError
                                                end).
Proof.
  unfold Tables.py_index.
  set (n := Z.of_nat (List.length l)).
  split; [|split].
  - assert (Hn : forall k, (0 <= k < n)%Z ->
                 exists x, nth_error l (Z.to_nat k) = Some x).
    { intros k Hk. destruct (nth_error l (Z.to_nat k)) eqn:E;
        [eauto|]. apply nth_error_None in E. lia. }
    destruct (Z.ltb_spec i 0).
    + destruct (Z.leb_spec 0 (i + n)); destruct (Z.ltb_spec (i + n) n);
        cbn [andb]; try lia.
      * destruct (Hn (i + n)%Z) as [x ->]; [lia|].
        split; [discriminate | lia].
      * split; [intros _; lia | reflexivity].
    + destruct (Z.leb_spec 0 i); [|lia]. destruct (Z.ltb_spec i n);
        cbn [andb].
      * destruct (Hn i) as [x ->]; [lia|].
        split; [discriminate | lia].
      * split; [intros _; lia | reflexivity].
  - intros e. destruct (_ && _)%bool; [|now intros H; injection H as <-].
    destruct (nth_error _ _); [discriminate | now intros H; injection H as <-].
  - intros j Hj.
    assert (Hlt : j < List.length l) by now apply nth_error_Some.
    destruct (Z.ltb_spec (Z.of_nat j) 0); [lia|].
    destruct (Z.leb_spec 0 (Z.of_nat j)); [|lia].
    destruct (Z.ltb_spec (Z.of_nat j) n); [|lia].
    cbn [andb]. now rewrite Nat2Z.id.
Qed.

Lemma item_int_raises (name : string) (d : dict) (e : exn) :
  Tables.item_int name d = Raise e -> e = KeyError \/ e = TypeError.
Proof.
  unfold Tables.item_int.
  destruct (lookup name d) as [[]|]; try discriminate;
    intros H; injection H as <-; tauto.
Qed.

(** X11.  [visit_entry] raises [IndexError] exactly when the column cursor of
    the row lies outside the [stubs] list of the table group (a row with
    more cells than the group has column specifications); a negative
    cursor counts from the end, as Python list indices do. *)
Theorem entry_beyond_columns :
  forall (in_mailto cloak in_thead : bool) (stubs : list (option value))
         (column0 : Z) (node_attributes : dict),
    Tables.visit_entry in_mailto cloak in_thead stubs column0
      node_attributes = Raise IndexError
    <-> (column0 < - Z.of_nat (List.length stubs)
         \/ Z.of_nat (List.length stubs) <= column0)%Z.
Proof.
  intros in_mailto cloak in_thead stubs column0 node_attributes.
  destruct (py_index_range stubs column0) as [Hr [He _]].
  rewrite <- Hr. unfold Tables.visit_entry.
  destruct (Tables.py_index stubs column0) as [stub|e] eqn:E.
  - cbn [bind]. split; [|discriminate]. intros H. exfalso.
    destruct (match (if nodes.truthy stub then _ else _) with
              | [] => _ | _ :: _ => _ end) as [tagname atts0].
    destruct (has_key "morerows" node_attributes).
    + destruct (Tables.item_int "morerows" node_attributes) eqn:E1;
        cbn [bind] in H;
        [|injection H as H; apply item_int_raises in E1;
          destruct E1; congruence].
      destruct (has_key "morecols" node_attributes).
      * destruct (Tables.item_int "morecols" node_attributes) eqn:E2;
          cbn [bind] in H;
          [|injection H as H; apply item_int_raises in E2;
            destruct E2; congruence].
        destruct (starttag _ _ _ _ _ _ _) eqn:E3; cbn [bind] in H;
          [discriminate|].
        injection H as H. apply starttag_raises in E3.
        destruct E3 as [|[|]]; congruence.
      * cbn [bind] in H.
        destruct (starttag _ _ _ _ _ _ _) eqn:E3; cbn [bind] in H;
          [discriminate|].
        injection H as H. apply starttag_raises in E3.
        destruct E3 as [|[|]]; congruence.
    + cbn [bind] in H.
      destruct (has_key "morecols" node_attributes).
      * destruct (Tables.item_int "morecols" node_attributes) eqn:E2;
          cbn [bind] in H;
          [|injection H as H; apply item_int_raises in E2;
            destruct E2; congruence].
        destruct (starttag _ _ _ _ _ _ _) eqn:E3; cbn [bind] in H;
          [discriminate|].
        injection H as H. apply starttag_raises in E3.
        destruct E3 as [|[|]]; congruence.
      * cbn [bind] in H.
        destruct (starttag _ _ _ _ _ _ _) eqn:E3; cbn [bind] in H;
          [discriminate|].
        injection H as H. apply starttag_raises in E3.
        destruct E3 as [|[|]]; congruence.
  - cbn [bind]. rewrite (He e eq_refl). tauto.
Qed.




Lemma write_cols_appends (in_mailto cloak : bool) (colspecs : list dict)
  (width : Z) :
  forall body body',
    Tables.write_cols in_mailto cloak colspecs width body = Ok body' ->
    exists tags,
      body' = (body ++ tags)%list
      /\ List.length tags = List.length colspecs.
Proof.
  induction colspecs as [|node rest IH]; intros body body' H; simpl in H.
  - injection H as <-. exists []. now rewrite app_nil_r.
  - destruct (Tables.item_int "colwidth" node) as [w|]; [|discriminate].
    cbn [bind] in H.
    destruct (Tables.colwidth_percent w width) as [pc|]; [|discriminate].
    cbn [bind] in H.
    destruct (Tables.col_tag in_mailto cloak node pc) as [tag|];
      [|discriminate].
    cbn [bind] in H. destruct (IH _ _ H) as [tags [-> Hl]].
    exists (tag :: tags). unfold append. rewrite <- app_assoc.
    split; [reflexivity | simpl; now rewrite Hl].
Qed.

(** X13.  When [write_colspecs] returns, the body has grown by exactly one [col]
    tag for each pending column specification, what was in it before is
    untouched, and the list of pending specifications is empty. *)
Theorem write_colspecs_emits :
  forall (in_mailto cloak : bool) (colspecs pending : list dict)
         (body body' : list string),
    Tables.write_colspecs in_mailto cloak colspecs body
    = Ok (body', pending) ->
    pending = []
    /\ exists tags,
         body' = (body ++ tags)%list
         /\ List.length tags = List.length colspecs.
Proof.
  intros in_mailto cloak colspecs pending body body' H.
  unfold Tables.write_colspecs in H.
  destruct (Tables.total_width colspecs 0) as [width|]; [|discriminate].
  cbn [bind] in H.
  destruct (Tables.write_cols in_mailto cloak colspecs width body)
    as [b|] eqn:E; [|discriminate].
  cbn [bind] in H. injection H as <- <-.
  split; [reflexivity|]. eapply write_cols_appends; eassumption.
Qed.

Lemma write_colspecs_emits_witness :
  exists body',
    Tables.write_colspecs false false Tables.three_colspecs ["<colgroup>"]
    = Ok (body', [])
    /\ exists tags,
         body' = ("<colgroup>" :: tags)%list /\ List.length tags = 3.
Proof.
  destruct (Tables.write_colspecs false false Tables.three_colspecs
              ["<colgroup>"]) as [[body' pending]|e] eqn:E;
    [|vm_compute in E; discriminate E].
  destruct (write_colspecs_emits false false Tables.three_colspecs pending
              ["<colgroup>"] body' E) as [-> H].
  exists body'. split; [reflexivity | exact H].
Defined.

Lemma total_width_item (node : dict) (rest : list dict) (acc total : Z) :
  Tables.total_width (node :: rest) acc = Ok total ->
  exists w, Tables.item_int "colwidth" node = Ok w.
Proof.
  simpl. destruct (Tables.item_int "colwidth" node) as [w|];
    [eauto | discriminate].
Qed.

(** X14.  A total width of zero.  With no column specification pending,
    [write_colspecs] writes nothing and does not divide; with at least one
    and a total width of zero it never returns: the division raises
    [ZeroDivisionError], unless the conversion of the first width to a
    float has already raised [OverflowError]. *)
Theorem write_colspecs_zero_width :
  forall (in_mailto cloak : bool) (body : list string),
    Tables.write_colspecs in_mailto cloak [] body = Ok (body, [])
    /\ forall (node : dict) (rest : list dict),
         Tables.total_width (node :: rest) 0 = Ok 0%Z ->
         Tables.write_colspecs in_mailto cloak (node :: rest) body
         = Raise ZeroDivisionError
         \/ Tables.write_colspecs in_mailto cloak (node :: rest) body
            = Raise OverflowError.
Proof.
  intros in_mailto cloak body. split; [reflexivity|].
  intros node rest Ht. unfold Tables.write_colspecs. rewrite Ht.
  cbn [bind Tables.write_cols].
  destruct (total_width_item node rest 0 0 Ht) as [w ->]. cbn [bind].
  unfold Tables.colwidth_percent, Tables.float_of_int.
  destruct (PrimFloat.is_infinity _); cbn [bind]; [now right|].
  left. reflexivity.
Qed.

Lemma write_colspecs_zero_width_witness :
  Tables.write_colspecs false false
    [[("colwidth", VInt 0)]; [("colwidth", VInt 0)]] []
  = Raise ZeroDivisionError.
Proof.
  destruct (proj2 (write_colspecs_zero_width false false [])
              [("colwidth", VInt 0)] [[("colwidth", VInt 0)]] eq_refl)
    as [H|H]; [exact H|].
  vm_compute in H. discriminate H.
Defined.

Lemma total_width_missing (pre : list dict) (node : dict)
  (post : list dict) :
  Forall (fun n => exists z, lookup "colwidth" n = Some (VInt z)) pre ->
  lookup "colwidth" node = None ->
  forall acc,
    Tables.total_width (pre ++ node :: post) acc = Raise KeyError.
Proof.
  intros Hpre Hn. induction Hpre as [|n pre [z Hz] _ IH]; intros acc;
    simpl; unfold Tables.item_int.
  - now rewrite Hn.
  - rewrite Hz. cbn [bind]. apply IH.
Qed.

(** X15.  A column specification without a [colwidth] makes [write_colspecs]
    raise [KeyError] while it adds up the widths, before any tag is
    written, wherever the specification stands in the list. *)
Theorem write_colspecs_missing_width :
  forall (in_mailto cloak : bool) (pre : list dict) (node : dict)
         (post : list dict) (body : list string),
    Forall (fun n => exists z, lookup "colwidth" n = Some (VInt z)) pre ->
    lookup "colwidth" node = None ->
    Tables.total_width (pre ++ node :: post) 0 = Raise KeyError
    /\ Tables.write_colspecs in_mailto cloak (pre ++ node :: post) body
       = Raise KeyError.
Proof.
  intros in_mailto cloak pre node post body Hpre Hn.
  pose proof (total_width_missing pre node post Hpre Hn 0%Z) as H.
  split; [exact H|]. unfold Tables.write_colspecs. now rewrite H.
Qed.

Lemma write_colspecs_missing_width_witness :
  Tables.write_colspecs false false
    ([[("colwidth", VInt 10)]] ++ [("stub", VInt 1)] :: []) []
  = Raise KeyError.
Proof.
  apply (write_colspecs_missing_width false false
           [[("colwidth", VInt 10)]] [("stub", VInt 1)] [] []).
  - repeat constructor. exists 10%Z. reflexivity.
  - reflexivity.
Defined.

(** ** The simple-list classifier *)

Lemma walk_finds_unfold (k : nodes.kind) (a : dict) (cs : list nodes.node) :
  Compact.walk_finds (nodes.Element k a cs)
  = match Compact.checker_visit (nodes.Element k a cs) with
    | Compact.NodeFound => true
    | Compact.Skip => false
    | Compact.Pass => existsb Compact.walk_finds cs
    end.
Proof.
  cbn [Compact.walk_finds].
  destruct (Compact.checker_visit _); reflexivity.
Qed.

Lemma is_kind_eq (k : nodes.kind) (n : nodes.node) :
  nodes.is_kind k n = true ->
  exists a cs, n = nodes.Element k a cs.
Proof.
  destruct n as [t|k' a cs]; [discriminate|]. simpl. intros H.
  apply kind_eqb_true in H. subst k'. eauto.
Qed.

Lemma invisible_skipped (c : nodes.node) :
  nodes.is_invisible c = true -> Compact.walk_finds c = false.
Proof.
  unfold nodes.is_invisible. intros H.
  repeat (apply orb_prop in H; destruct H as [H|H]);
    apply is_kind_eq in H; destruct H as [a [cs ->]];
    now rewrite walk_finds_unfold.
Qed.

Lemma checker_visit_visible (k : nodes.kind) (a : dict)
  (cs cs' : list nodes.node) :
  filter (fun c => negb (nodes.is_invisible c)) cs
  = filter (fun c => negb (nodes.is_invisible c)) cs' ->
  Compact.checker_visit (nodes.Element k a cs)
  = Compact.checker_visit (nodes.Element k a cs').
Proof.
  intros H. destruct k; try reflexivity;
    cbn [Compact.checker_visit]; unfold Compact.visit_list_item;
    cbn [nodes.children]; now rewrite H.
Qed.

(** X16.  Invisible nodes (comments, substitution definitions, targets, pending
    nodes) do not count: putting one among the children of a node, at any
    place, does not change the verdict of the classifier on that node. *)
Theorem invisible_nodes_ignored :
  forall (k : nodes.kind) (a : dict) (before after : list nodes.node)
         (c : nodes.node),
    nodes.is_invisible c = true ->
    Compact.simple_list (nodes.Element k a (before ++ c :: after))
    = Compact.simple_list (nodes.Element k a (before ++ after)).
Proof.
  intros k a before after c Hc. unfold Compact.simple_list. f_equal.
  rewrite !walk_finds_unfold.
  rewrite (checker_visit_visible k a (before ++ c :: after)
             (before ++ after)).
  - destruct (Compact.checker_visit _); try reflexivity.
    rewrite !existsb_app. simpl. now rewrite (invisible_skipped c Hc).
  - rewrite !filter_app. simpl. now rewrite Hc.
Qed.

Lemma invisible_nodes_ignored_witness :
  Compact.simple_list
    (nodes.Element nodes.list_item []
       ([plain nodes.paragraph [nodes.Text "one"]]
        ++ plain nodes.comment [nodes.Text "hidden"]
           :: [plain nodes.bullet_list []]))
  = Compact.simple_list
      (nodes.Element nodes.list_item []
         ([plain nodes.paragraph [nodes.Text "one"]]
          ++ [plain nodes.bullet_list []])).
Proof.
  apply (invisible_nodes_ignored nodes.list_item []
           [plain nodes.paragraph [nodes.Text "one"]]
           [plain nodes.bullet_list []]
           (plain nodes.comment [nodes.Text "hidden"])).
  reflexivity.
Defined.

Lemma removelast_length {A : Type} (l : list A) :
  List.length (removelast l) = List.length l - 1.
Proof.
  induction l as [|x [|y l] IH]; try reflexivity.
  change (removelast (x :: y :: l)) with (x :: removelast (y :: l)).
  simpl List.length in *. rewrite IH. lia.
Qed.

(** X17.  The verdict of [visit_list_item]: it accepts the node exactly when at
    most one visible child is left, after a bullet list, enumerated list
    or field list at the end has been set aside if the first visible child
    is a paragraph.  With two visible children that is the case of a
    paragraph followed by such a list; with three or more the node is
    never accepted. *)
Theorem list_item_verdict :
  forall n : nodes.node,
    let visible := filter (fun c => negb (nodes.is_invisible c))
                          (nodes.children n) in
    Compact.visit_list_item n <> Compact.Skip
    /\ (Compact.visit_list_item n = Compact.Pass
        <-> List.length visible <= 1
            \/ exists p l,
                 visible = [p; l]
                 /\ nodes.is_kind nodes.paragraph p = true
                 /\ (nodes.is_kind nodes.bullet_list l
                     || nodes.is_kind nodes.enumerated_list l
                     || nodes.is_kind nodes.field_list l) = true).
Proof.
  intros n visible. unfold Compact.visit_list_item. fold visible.
  destruct visible as [|x [|y [|z rest]]].
  - split; [discriminate|]. split; [intros _; left; simpl; lia|].
    reflexivity.
  - cbn [Compact.last_node rev app].
    destruct (_ && _)%bool; cbn; (split; [discriminate|]);
      (split; [intros _; left; lia | reflexivity]).
  - cbn [Compact.last_node rev app].
    destruct (nodes.is_kind nodes.paragraph x) eqn:Ex;
      [destruct (nodes.is_kind nodes.bullet_list y
                 || nodes.is_kind nodes.enumerated_list y
                 || nodes.is_kind nodes.field_list y) eqn:Ey|];
      cbn; (split; [discriminate|]); split;
      try discriminate; try reflexivity.
    + intros _. right. exists x, y. auto.
    + intros [H|[p [l [H [_ Hl]]]]]; [simpl in H; lia|].
      injection H as -> ->. congruence.
    + intros [H|[p [l [H [Hp _]]]]]; [simpl in H; lia|].
      injection H as -> ->. congruence.
  - assert (Hf : forall cs : list nodes.node,
               2 <= List.length cs ->
               (if List.length cs <=? 1 then Compact.Pass
                else Compact.NodeFound) = Compact.NodeFound).
    { intros cs Hcs. destruct (Nat.leb_spec (List.length cs) 1);
        [lia | reflexivity]. }
    assert (Hr : (if List.length
                       match Compact.last_node (x :: y :: z :: rest) with
                       | Some last =>
                           if nodes.is_kind nodes.paragraph x
                              && (nodes.is_kind nodes.bullet_list last
                                  || nodes.is_kind nodes.enumerated_list last
                                  || nodes.is_kind nodes.field_list last)
                           then removelast (x :: y :: z :: rest)
                           else x :: y :: z :: rest
                       | None => x :: y :: z :: rest
                       end <=? 1
                  then Compact.Pass else Compact.NodeFound)
                 = Compact.NodeFound).
    { apply Hf. destruct (Compact.last_node _);
        [destruct (_ && _)%bool|];
        rewrite ?removelast_length; simpl List.length; lia. }
    rewrite Hr. split; [discriminate|]. split; [discriminate|].
    intros [H|[p [l [H _]]]]; [simpl in H; lia | discriminate].
Qed.

Lemma paragraph_visible (p : nodes.node) :
  nodes.is_kind nodes.paragraph p = true ->
  nodes.is_invisible p = false /\ Compact.walk_finds p = false.
Proof.
  intros H. apply is_kind_eq in H. destruct H as [a [cs ->]].
  split; [reflexivity | now rewrite walk_finds_unfold].
Qed.

Lemma list_visible (l : nodes.node) :
  Outline.is_list l = true ->
  nodes.is_invisible l = false
  /\ (nodes.is_kind nodes.bullet_list l
      || nodes.is_kind nodes.enumerated_list l
      || nodes.is_kind nodes.field_list l) = true
  /\ nodes.is_kind nodes.paragraph l = false.
Proof.
  unfold Outline.is_list. intros H.
  apply orb_prop in H. destruct H as [H|H];
    apply is_kind_eq in H; destruct H as [a [cs ->]];
    repeat split; reflexivity.
Qed.

(** X18.  The classifier agrees with the outline of the docstrings: a list
    whose items hold a single paragraph, a simple list, or a paragraph
    followed by a simple list, to any depth, is classified as simple. *)
Theorem outline_lists_are_simple :
  forall n : nodes.node,
    Outline.simple_shape n = true -> Compact.simple_list n = true.
Proof.
  unfold Compact.simple_list.
  induction n as [t|k a cs IH] using node_induction; [discriminate|].
  intros H. apply negb_true_iff. rewrite walk_finds_unfold.
  assert (Hall : forallb Outline.simple_shape cs = true ->
                 existsb Compact.walk_finds cs = false).
  { clear H. induction IH as [|c cs Hc _ IHcs]; simpl; [reflexivity|].
    intros H. apply andb_prop in H. destruct H as [H1 H2].
    apply Hc in H1. apply negb_true_iff in H1. rewrite H1. auto. }
  destruct k; try discriminate H; cbn [Outline.simple_shape] in H.
  - now apply Hall.
  - now apply Hall.
  - cbn [Compact.checker_visit]. unfold Compact.visit_list_item.
    cbn [nodes.children].
    destruct cs as [|c [|l [|x rest]]]; try discriminate H.
    + apply orb_prop in H. destruct H as [H|H].
      * destruct (paragraph_visible c H) as [Hv Hw].
        cbn [filter]. rewrite Hv. cbn [negb Compact.last_node rev app].
        rewrite H. cbn [andb].
        destruct (nodes.is_kind nodes.bullet_list c
                  || nodes.is_kind nodes.enumerated_list c
                  || nodes.is_kind nodes.field_list c);
          cbn; now rewrite Hw.
      * apply andb_prop in H. destruct H as [Hl Hs].
        destruct (list_visible c Hl) as [Hv [_ Hp]].
        cbn [filter]. rewrite Hv. cbn [negb Compact.last_node rev app].
        rewrite Hp. cbn.
        inversion IH as [|? ? Hc _]; subst.
        apply Hc in Hs. apply negb_true_iff in Hs. now rewrite Hs.
    + apply andb_prop in H. destruct H as [H Hs].
      apply andb_prop in H. destruct H as [Hp Hl].
      destruct (paragraph_visible c Hp) as [Hv Hw].
      destruct (list_visible l Hl) as [Hv' [Hk _]].
      cbn [filter]. rewrite Hv, Hv'.
      cbn [negb Compact.last_node rev app]. rewrite Hp, Hk. cbn.
      rewrite Hw. cbn.
      inversion IH as [|? ? _ IH']; subst.
      inversion IH' as [|? ? Hc _]; subst.
      apply Hc in Hs. apply negb_true_iff in Hs. now rewrite Hs.
Qed.

Lemma outline_lists_are_simple_witness :
  Compact.simple_list
    (plain nodes.bullet_list
       [plain nodes.list_item [plain nodes.paragraph [nodes.Text "one"]];
        plain nodes.list_item
          [plain nodes.paragraph [nodes.Text "two"];
           plain nodes.enumerated_list
             [plain nodes.list_item
                [plain nodes.paragraph [nodes.Text "nested"]]]]])
  = true.
Proof.
  apply outline_lists_are_simple. reflexivity.
Defined.

(** ** Math nodes in every mode *)

Section MathModes.

Variable uni2tex : string -> string.
Variable math2html : bool -> string -> string.
Variable parse_latex_math : string -> bool -> string + list string.
Variable stylesheet_calls : list string -> list string.
Variable system_message : list string -> list string.
Variable error_text : list string -> string.
Variables in_mailto cloak : bool.

Local Notation "'visit'" :=
  (Math.visit_math uni2tex math2html parse_latex_math stylesheet_calls
     system_message error_text in_mailto cloak) (only parsing).

Lemma append_math_ends (st : Math.state) (node_attributes : dict)
  (tag clsarg math_env math_code : string) :
  (forall s,
      Math.append_math in_mailto cloak st node_attributes tag clsarg
        math_env math_code <> Continue s)
  /\ (forall st',
         Math.append_math in_mailto cloak st node_attributes tag clsarg
           math_env math_code = SkipNode st' ->
         Math.math_output st' = Math.math_output st
         /\ Math.math_header st' = Math.math_header st
         /\ Math.doctype st' = Math.doctype st
         /\ Math.reports st' = Math.reports st
         /\ exists before after,
              Math.body st'
              = (Math.body st ++ before ++ math_code :: after)%list)
  /\ (forall classes ids,
         get_list "classes" node_attributes = Ok classes ->
         get_list "ids" node_attributes = Ok ids ->
         exists st',
           Math.append_math in_mailto cloak st node_attributes tag clsarg
             math_env math_code = SkipNode st').
Proof.
  unfold Math.append_math.
  destruct (String.eqb tag "") eqn:Et.
  - split; [discriminate|]. split.
    + intros st' H. injection H as <-. cbn.
      repeat split; try reflexivity.
      exists []. unfold append.
      destruct (negb (String.eqb math_env "")); cbn;
        rewrite <- ?app_assoc; eexists; reflexivity.
    + intros. eexists. reflexivity.
  - split; [|split].
    + destruct (starttag _ _ _ _ _ _ _); cbn [bind]; discriminate.
    + intros st'.
      destruct (starttag _ _ _ _ _ _ _) as [t|]; cbn [bind];
        [|discriminate].
      intros H. injection H as <-. cbn.
      repeat split; try reflexivity.
      exists [t]. unfold append.
      destruct (negb (String.eqb math_env "")); cbn;
        rewrite <- ?app_assoc; eexists; reflexivity.
    + intros classes ids Hc Hi.
      destruct (starttag_class_only in_mailto cloak node_attributes tag
                  (if negb (String.eqb math_env "") then Math.nl else "")
                  clsarg false classes ids Hc Hi) as [t ->].
      cbn [bind]. eexists. reflexivity.
Qed.

Lemma starttag_plain (node_attributes : dict) (tagname suffix : string)
  (classes ids : list string) :
  get_list "classes" node_attributes = Ok classes ->
  get_list "ids" node_attributes = Ok ids ->
  exists tag,
    starttag in_mailto cloak node_attributes tagname suffix false []
    = Ok tag.
Proof.
  intros Hc Hi. unfold starttag. cbn [lower_keys class_argument lookup bind].
  rewrite Hc, Hi. cbn [bind remove]. cbn [split_ws split_ws_aux String.eqb].
  destruct (unify_classes _ _ _) as [cs ls].
  destruct ls as [|l0 ls], cs as [|c0 cs]; cbn;
    destruct (ids ++ [])%list; eexists; reflexivity.
Qed.

Lemma syntax_error_ends (st : Math.state) (node_attributes : dict)
  (math_code : string) (args : list string) :
  (forall s,
      Math.syntax_error system_message error_text in_mailto cloak st
        node_attributes math_code args <> Continue s)
  /\ (forall st',
         Math.syntax_error system_message error_text in_mailto cloak st
           node_attributes math_code args = SkipNode st' ->
         Math.math_output st' = Math.math_output st
         /\ Math.math_header st' = Math.math_header st
         /\ Math.doctype st' = Math.doctype st
         /\ exists before after,
              Math.body st'
              = (Math.body st ++ before ++ encode math_code :: after)%list)
  /\ (forall classes ids,
         get_list "classes" node_attributes = Ok classes ->
         get_list "ids" node_attributes = Ok ids ->
         exists st',
           Math.syntax_error system_message error_text in_mailto cloak st
             node_attributes math_code args = SkipNode st').
Proof.
  unfold Math.syntax_error. split; [|split].
  - destruct (starttag _ _ _ "p" _ _ _); cbn [bind]; [|discriminate].
    destruct (starttag _ _ _ "pre" _ _ _); cbn [bind]; discriminate.
  - intros st'.
    destruct (starttag _ _ _ "p" _ _ _) as [t1|]; cbn [bind];
      [|discriminate].
    destruct (starttag _ _ _ "pre" _ _ _) as [t2|]; cbn [bind];
      [|discriminate].
    intros H. injection H as <-.
    cbn [Math.math_output Math.math_header Math.doctype Math.body].
    repeat split; try reflexivity.
    exists (system_message args
            ++ [t1; join "," args; ("</p>" ++ Math.nl)%string; t2])%list.
    eexists. unfold append. rewrite <- !app_assoc. cbn [app].
    reflexivity.
  - intros classes ids Hc Hi.
    destruct (starttag_plain node_attributes "p" Math.nl classes ids Hc Hi)
      as [t1 ->].
    destruct (starttag_class_only in_mailto cloak node_attributes "pre"
                Math.nl "literal-block" false classes ids Hc Hi)
      as [t2 ->].
    cbn [bind]. eexists. reflexivity.
Qed.

(** X19.  Math nodes are complete after their visit in every mode: [visit_math]
    never returns normally, so [depart_math] is never called.  On a node
    whose [classes] and [ids] are lists it ends with [SkipNode]; what was
    in [body] stays, and the fragments of the formula are added behind
    it. *)
Theorem math_is_always_skipped :
  forall (st : Math.state) (node_attributes : dict)
         (astext math_env : string),
    (forall s, visit st node_attributes astext math_env <> Continue s)
    /\ (forall st',
           visit st node_attributes astext math_env = SkipNode st' ->
           exists added,
             added <> []
             /\ Math.body st' = (Math.body st ++ added)%list)
    /\ (forall classes ids,
           get_list "classes" node_attributes = Ok classes ->
           get_list "ids" node_attributes = Ok ids ->
           exists st',
             visit st node_attributes astext math_env = SkipNode st').
Proof.
  intros st node_attributes astext math_env.
  assert (Hadd : forall (b0 b1 : list string) (code : string),
             (exists before after,
                 b1 = (b0 ++ before ++ code :: after)%list) ->
             exists added, added <> [] /\ b1 = (b0 ++ added)%list).
  { intros b0 b1 code [before [after ->]].
    exists (before ++ code :: after)%list. split; [|reflexivity].
    destruct before; discriminate. }
  unfold Math.visit_math.
  destruct (Math.mode_of (Math.math_output st)) as [[| | |]|];
    unfold Math.render; cbn [Math.tags].
  - destruct (parse_latex_math _ _) as [xml|args].
    + match goal with
      | |- context [Math.append_math _ _ ?s ?a ?t ?c ?e ?m] =>
          destruct (append_math_ends s a t c e m) as [H1 [H2 H3]]
      end.
      split; [exact H1|]. split; [|exact H3].
      intros st' H. destruct (H2 st' H) as [_ [_ [_ [_ Hb]]]].
      eapply Hadd. exact Hb.
    + match goal with
      | |- context [Math.syntax_error _ _ _ _ ?s ?a ?m ?r] =>
          destruct (syntax_error_ends s a m r) as [H1 [H2 H3]]
      end.
      split; [exact H1|]. split; [|exact H3].
      intros st' H. destruct (H2 st' H) as [_ [_ [_ Hb]]].
      eapply Hadd. exact Hb.
  - match goal with
    | |- context [Math.append_math _ _ ?s ?a ?t ?c ?e ?m] =>
        destruct (append_math_ends s a t c e m) as [H1 [H2 H3]]
    end.
    split; [exact H1|]. split; [|exact H3].
    intros st' H. destruct (H2 st' H) as [_ [_ [_ [_ Hb]]]].
    destruct (Math.math_output_options st), (Math.math_header st);
      eapply Hadd; exact Hb.
  - match goal with
    | |- context [Math.append_math _ _ ?s ?a ?t ?c ?e ?m] =>
        destruct (append_math_ends s a t c e m) as [H1 [H2 H3]]
    end.
    split; [exact H1|]. split; [|exact H3].
    intros st' H. destruct (H2 st' H) as [_ [_ [_ [_ Hb]]]].
    destruct (Math.math_header st); eapply Hadd; exact Hb.
  - match goal with
    | |- context [Math.append_math _ _ ?s ?a ?t ?c ?e ?m] =>
        destruct (append_math_ends s a t c e m) as [H1 [H2 H3]]
    end.
    split; [exact H1|]. split; [|exact H3].
    intros st' H. destruct (H2 st' H) as [_ [_ [_ [_ Hb]]]].
    eapply Hadd; exact Hb.
  - match goal with
    | |- context [Math.append_math _ _ ?s ?a ?t ?c ?e ?m] =>
        destruct (append_math_ends s a t c e m) as [H1 [H2 H3]]
    end.
    split; [exact H1|]. split; [|exact H3].
    intros st' H. destruct (H2 st' H) as [_ [_ [_ [_ Hb]]]].
    eapply Hadd; exact Hb.
Qed.

(** X20.  The MathJax script is registered once.  In the [mathjax] mode the
    first formula puts the script reference into [math_header] (with the
    address given as an option of the math output, if there is one); every
    later formula finds the header filled and leaves it as it is. *)
Theorem mathjax_script_once :
  forall (st st' : Math.state) (node_attributes : dict)
         (astext math_env : string),
    Math.math_output st = "mathjax" ->
    visit st node_attributes astext math_env = SkipNode st' ->
    Math.math_output st' = "mathjax"
    /\ Math.math_header st'
       = match Math.math_header st with
         | [] =>
             [Math.mathjax_script
                match Math.math_output_options st with
                | [] => Math.mathjax_url st
                | o :: _ => o
                end]
         | _ :: _ => Math.math_header st
         end
    /\ forall (st'' : Math.state) (node_attributes' : dict)
              (astext' math_env' : string),
         visit st' node_attributes' astext' math_env' = SkipNode st'' ->
         Math.math_header st'' = Math.math_header st'.
Proof.
  assert (Hone : forall st st' na astext env,
             Math.math_output st = "mathjax" ->
             visit st na astext env = SkipNode st' ->
             Math.math_output st' = "mathjax"
             /\ Math.math_header st'
                = match Math.math_header st with
                  | [] =>
                      [Math.mathjax_script
                         match Math.math_output_options st with
                         | [] => Math.mathjax_url st
                         | o :: _ => o
                         end]
                  | _ :: _ => Math.math_header st
                  end).
  { intros st st' na astext env Hm. unfold Math.visit_math.
    rewrite Hm. cbn [Math.mode_of String.eqb Ascii.eqb Bool.eqb].
    unfold Math.render. cbn [Math.tags].
    match goal with
    | |- context [Math.append_math _ _ ?s ?a ?t ?c ?e ?m] =>
        destruct (append_math_ends s a t c e m) as [_ [H2 _]]
    end.
    intros H. destruct (H2 st' H) as [Ho [Hh _]].
    rewrite Ho, Hh. destruct (Math.math_header st) eqn:E;
      cbn [Math.math_output Math.math_header]; split; auto. }
  intros st st' na astext env Hm Hv.
  destruct (Hone st st' na astext env Hm Hv) as [Ho Hh].
  split; [exact Ho|]. split; [exact Hh|].
  intros st'' na' astext' env' Hv'.
  destruct (Hone st' st'' na' astext' env' Ho Hv') as [_ Hh'].
  rewrite Hh'. rewrite Hh. now destruct (Math.math_header st).
Qed.

End MathModes.

Lemma math_is_always_skipped_witness :
  exists st',
    Math.visit_math (fun s => s) (fun _ s => s) (fun s _ => inl s)
      (fun l => l) (fun l => l) (fun _ => "") false false asciimath_state
      [] "x" "" = SkipNode st'.
Proof.
  apply (proj2 (proj2 (math_is_always_skipped (fun s => s) (fun _ s => s)
                         (fun s _ => inl s) (fun l => l) (fun l => l)
                         (fun _ => "") false false asciimath_state [] "x"
                         "")) [] []); reflexivity.
Defined.

Lemma mathjax_script_once_witness :
  exists st',
    Math.visit_math (fun s => s) (fun _ s => s) (fun s _ => inl s)
      (fun l => l) (fun l => l) (fun _ => "") false false mathjax_state
      [] "x" "" = SkipNode st'
    /\ Math.math_header st' = [Math.mathjax_script "MathJax.js"].
Proof.
  eexists. split; [reflexivity|].
  exact (proj1 (proj2 (mathjax_script_once (fun s => s) (fun _ s => s)
                         (fun s _ => inl s) (fun l => l) (fun l => l)
                         (fun _ => "") false false mathjax_state _ [] "x"
                         "" eq_refl eq_refl))).
Defined.

(** ** The traversal: what a completed run excludes *)

Lemma walk_children_nth (cfg : settings) (cs : list nodes.node) :
  forall p i st st' j c,
    Walk.walk_children cfg cs p i st = Ok st' ->
    nth_error cs j = Some c ->
    exists s s', Walk.walkabout cfg c (append p (i + j)) s = Ok s'.
Proof.
  induction cs as [|c0 cs IH]; intros p i st st' j c Hrun Hj.
  - destruct j; discriminate.
  - cbn [Walk.walk_children] in Hrun.
    destruct (Walk.walkabout cfg c0 (append p i) st) as [s1|] eqn:E;
      [|discriminate].
    cbn [bind] in Hrun. destruct j as [|j].
    + injection Hj as <-. rewrite Nat.add_0_r. eauto.
    + cbn [nth_error] in Hj.
      destruct (IH p (S i) s1 st' j c Hrun Hj) as [s [s' H]].
      replace (i + S j) with (S i + j) by lia. eauto.
Qed.

Lemma completed_node_implemented (cfg : settings) (k : nodes.kind)
  (a : dict) (cs : list nodes.node) (p : Walk.path) (st st' : Walk.state) :
  Walk.walkabout cfg (nodes.Element k a cs) p st = Ok st' ->
  k <> nodes.substitution_reference /\ k <> nodes.pending.
Proof.
  intros H. rewrite walkabout_unfold in H.
  split; intros ->; discriminate H.
Qed.

(** X21.  A traversal that completes has met no node the writer cannot render:
    no node that it reached is a substitution reference or a pending
    node, for which the visit raises [NotImplementedError]. *)
Theorem completed_run_has_no_unimplemented_node :
  forall (cfg : settings) (n : nodes.node) (p : Walk.path)
         (st st' : Walk.state) (r : Walk.path) (m : nodes.node),
    Walk.walkabout cfg n p st = Ok st' ->
    Walk.reached n r = Some m ->
    nodes.is_kind nodes.substitution_reference m = false
    /\ nodes.is_kind nodes.pending m = false.
Proof.
  intros cfg n. induction n as [t|k a cs IH] using node_induction;
    intros p st st' r m Hrun Hr.
  - destruct r as [|i r].
    + injection Hr as <-. split; reflexivity.
    + rewrite reached_cons in Hr. cbn in Hr. now destruct i.
  - destruct r as [|i r].
    + injection Hr as <-.
      destruct (completed_node_implemented cfg k a cs p st st' Hrun)
        as [H1 H2].
      unfold nodes.is_kind, nodes.kind_eqb.
      destruct (nodes.kind_eq_dec nodes.substitution_reference k);
        [congruence|].
      destruct (nodes.kind_eq_dec nodes.pending k); [congruence|].
      split; reflexivity.
    + rewrite reached_cons in Hr.
      destruct (Walk.skips (nodes.Element k a cs)) eqn:Es; [discriminate|].
      cbn [nodes.children] in Hr.
      destruct (nth_error cs i) as [c|] eqn:Ec; [|discriminate].
      rewrite walkabout_unfold in Hrun.
      destruct (Walk.dispatch_visit cfg _ _) as [s1|s1|e] eqn:Ev;
        [| |discriminate].
      * cbn [nodes.children] in Hrun.
        destruct (Walk.walk_children cfg cs p 0 s1) as [s2|] eqn:Ech;
          [|discriminate].
        destruct (walk_children_nth cfg cs p 0 s1 s2 i c Ech Ec)
          as [s [s' Hc]].
        rewrite Forall_forall in IH.
        apply (IH c (nth_error_In _ _ Ec) _ _ _ r m Hc Hr).
      * apply (proj2 (visit_trace cfg _ _ s1)) in Ev.
        destruct Ev as [_ Ev]. congruence.
Qed.

Lemma completed_run_has_no_unimplemented_node_witness :
  exists st',
    Walk.translate cloak_settings "html" comment_document = Ok st'
    /\ nodes.is_kind nodes.substitution_reference
         (plain nodes.paragraph [nodes.Text "text"]) = false.
Proof.
  destruct (Walk.translate cloak_settings "html" comment_document)
    as [st'|e] eqn:E; [|vm_compute in E; discriminate E].
  exists st'. split; [reflexivity|].
  exact (proj1 (completed_run_has_no_unimplemented_node cloak_settings
                  comment_document [] (Walk.initial "html") st' [1]
                  (plain nodes.paragraph [nodes.Text "text"]) E eq_refl)).
Defined.

Lemma visit_flag (cfg : settings) (n : nodes.node) (st s : Walk.state) :
  Walk.dispatch_visit cfg n st = Continue s
  \/ Walk.dispatch_visit cfg n st = SkipNode s ->
  nodes.is_kind nodes.reference n = false ->
  Walk.in_mailto s = Walk.in_mailto st.
Proof.
  intros Hv Hk. destruct n as [t|k a cs]; simpl in *.
  - destruct Hv as [Hv|Hv]; [|discriminate]. now injection Hv as <-.
  - unfold Walk.visit_reference, Walk.visit_math, Walk.visit_generated,
      Walk.lift, Walk.pop_, Walk.pop in Hv.
    destruct k; simpl in Hv; try discriminate Hk;
      try (destruct Hv as [Hv|Hv]; try discriminate;
           injection Hv as <-; reflexivity);
      try (destruct (Walk.attribution_suffix _);
           destruct Hv as [Hv|Hv]; try discriminate;
           injection Hv as <-; reflexivity);
      try (destruct (Walk.context st); simpl in Hv;
           destruct Hv as [Hv|Hv]; try discriminate;
           injection Hv as <-; reflexivity);
      try (destruct (Math.mode_of _);
           destruct Hv as [Hv|Hv]; try discriminate;
           injection Hv as <-; reflexivity).
    destruct (nodes.item_list "classes" _) as [l|];
      [destruct (mem "sectnum" l)|];
      destruct Hv as [Hv|Hv]; try discriminate;
      injection Hv as <-; reflexivity.
Qed.

Lemma depart_flag (n : nodes.node) (st s : Walk.state) :
  Walk.dispatch_departure n st = Ok s ->
  Walk.in_mailto s
  = if nodes.is_kind nodes.reference n then false else Walk.in_mailto st.
Proof.
  destruct n as [t|k a cs]; simpl.
  - intros H. now injection H as <-.
  - unfold Walk.depart_reference, Walk.pop_, Walk.pop.
    destruct k; simpl;
      try (intros H; now injection H as <-);
      try discriminate;
      destruct (Walk.context st); simpl; try discriminate;
      intros H; now injection H as <-.
Qed.

Lemma walk_flag (cfg : settings) (n : nodes.node) :
  forall p st st',
    Walk.walkabout cfg n p st = Ok st' ->
    Walk.in_mailto st' = true -> Walk.in_mailto st = true.
Proof.
  induction n as [t|k a cs IH] using node_induction;
    intros p st st' Hrun Hf; rewrite walkabout_unfold in Hrun.
  - simpl in Hrun. injection Hrun as <-. exact Hf.
  - set (n := nodes.Element k a cs) in *.
    set (st0 := Walk.log _ st) in Hrun.
    assert (Hch : forall i s1 s2,
               Walk.walk_children cfg cs p i s1 = Ok s2 ->
               Walk.in_mailto s2 = true -> Walk.in_mailto s1 = true).
    { clear Hrun. induction IH as [|c cs Hc _ IHcs]; intros i s1 s2 H H2.
      - injection H as <-. exact H2.
      - cbn [Walk.walk_children] in H.
        destruct (Walk.walkabout cfg c (append p i) s1) as [s|] eqn:E;
          [|discriminate].
        cbn [bind] in H. eapply Hc; [exact E|]. eapply IHcs; eassumption. }
    destruct (Walk.dispatch_visit cfg n st0) as [s1|s1|e] eqn:Ev;
      [| |discriminate].
    + cbn [nodes.children n] in Hrun.
      destruct (Walk.walk_children cfg cs p 0 s1) as [s2|] eqn:Ec;
        [|discriminate].
      cbn [bind] in Hrun.
      destruct (Walk.dispatch_departure n s2) as [s3|] eqn:Ed;
        [|discriminate].
      cbn [bind] in Hrun. injection Hrun as <-.
      cbn [Walk.log Walk.in_mailto] in Hf.
      rewrite (depart_flag n s2 s3 Ed) in Hf.
      destruct (nodes.is_kind nodes.reference n) eqn:Ek; [discriminate|].
      apply (Hch 0 s1 s2 Ec) in Hf.
      rewrite (visit_flag cfg n st0 s1 (or_introl Ev) Ek) in Hf. exact Hf.
    + injection Hrun as <-.
      destruct (proj2 (visit_trace cfg n st0 s1) Ev) as [_ Hs].
      assert (Ek : nodes.is_kind nodes.reference n = false).
      { unfold n, nodes.is_kind, nodes.kind_eqb.
        destruct (nodes.kind_eq_dec nodes.reference k) as [<-|];
          [discriminate Hs | reflexivity]. }
      rewrite (visit_flag cfg n st0 s1 (or_intror Ev) Ek) in Hf. exact Hf.
Qed.

(** X22.  The mail flag is never left on.  The traversal of a node cannot end
    with [in_mailto] set unless it started with it set; so a document is
    translated with the flag off at every node outside a mail link, and
    the flag is off when the translation is done. *)
Theorem mail_flag_not_left_on :
  (forall (cfg : settings) (n : nodes.node) (p : Walk.path)
          (st st' : Walk.state),
      Walk.walkabout cfg n p st = Ok st' ->
      Walk.in_mailto st = false -> Walk.in_mailto st' = false)
  /\ (forall (cfg : settings) (math_output : string) (doc : nodes.node)
             (st' : Walk.state),
         Walk.translate cfg math_output doc = Ok st' ->
         Walk.in_mailto st' = false).
Proof.
  assert (H : forall cfg n p st st',
             Walk.walkabout cfg n p st = Ok st' ->
             Walk.in_mailto st = false -> Walk.in_mailto st' = false).
  { intros cfg n p st st' Hrun Hf.
    destruct (Walk.in_mailto st') eqn:E; [|reflexivity].
    rewrite (walk_flag cfg n p st st' Hrun E) in Hf. discriminate. }
  split; [exact H|].
  intros cfg math_output doc st' Hrun. now apply H in Hrun.
Qed.

Lemma mail_flag_not_left_on_witness :
  exists st',
    Walk.translate cloak_settings "html"
      (plain nodes.document [plain nodes.paragraph [mail_reference]])
    = Ok st'
    /\ Walk.in_mailto st' = false.
Proof.
  destruct (Walk.translate cloak_settings "html"
              (plain nodes.document
                 [plain nodes.paragraph [mail_reference]]))
    as [st'|e] eqn:E; [|vm_compute in E; discriminate E].
  exists st'. split; [reflexivity|].
  exact (proj2 mail_flag_not_left_on cloak_settings "html" _ st' E).
Defined.

(** ** Comments *)

Lemma escape_dashes_head (text : string) :
  match text, Comments.escape_dashes text with
  | EmptyString, EmptyString => True
  | String c _, String d _ => c = d
  | _, _ => False
  end.
Proof.
  destruct text as [|c rest]; simpl; [exact I|].
  destruct (Ascii.eqb c "-" && startswith rest "-") eqn:E; [|reflexivity].
  apply andb_prop in E. destruct E as [E _].
  now apply Ascii.eqb_eq in E.
Qed.

Lemma escape_dashes_start (text : string) :
  startswith (Comments.escape_dashes text) "--" = false.
Proof.
  destruct text as [|c rest]; [reflexivity|].
  cbn [Comments.escape_dashes].
  destruct (Ascii.eqb c "-") eqn:Ec; cbn [andb].
  - destruct (startswith rest "-") eqn:Er; [reflexivity|].
    apply Ascii.eqb_eq in Ec. subst c.
    pose proof (escape_dashes_head rest) as H.
    destruct rest as [|d rest']; [reflexivity|].
    destruct (Comments.escape_dashes (String d rest')) as [|d' e'];
      [contradiction|].
    subst d'. unfold startswith in *. cbn [strip_prefix] in *.
    change (Ascii.eqb "-" "-") with true. cbn iota.
    destruct (Ascii.eqb "-" d); [discriminate | reflexivity].
  - unfold startswith. cbn [strip_prefix].
    rewrite Ascii.eqb_sym, Ec. reflexivity.
Qed.

Lemma has_substring_cons (sub : string) (c : ascii) (s : string) :
  Scan.has_substring sub (String c s)
  = startswith (String c s) sub || Scan.has_substring sub s.
Proof. reflexivity. Qed.

(** X23.  Double dashes never reach a comment: the text that [visit_comment]
    puts between the comment marks holds no two dashes in a row, so it
    cannot end the comment early; a text without such a pair is written
    as it is. *)
Theorem comment_has_no_double_dash :
  forall text : string,
    Scan.has_substring "--" (Comments.escape_dashes text) = false
    /\ (Scan.has_substring "--" text = false ->
        Comments.escape_dashes text = text).
Proof.
  intros text. split.
  - induction text as [|c rest IH]; [reflexivity|].
    pose proof (escape_dashes_start (String c rest)) as Hs.
    cbn [Comments.escape_dashes] in *.
    destruct (Ascii.eqb c "-" && startswith rest "-").
    + rewrite !has_substring_cons, IH. reflexivity.
    + now rewrite has_substring_cons, Hs, IH.
  - induction text as [|c rest IH]; [reflexivity|].
    rewrite has_substring_cons. cbn [Comments.escape_dashes]. intros H.
    apply orb_false_elim in H. destruct H as [Hs Hr].
    assert (E : Ascii.eqb c "-" && startswith rest "-" = false).
    { unfold startswith in *. cbn [strip_prefix] in Hs.
      rewrite (Ascii.eqb_sym c "-").
      destruct (Ascii.eqb "-" c); [|reflexivity]. cbn [andb].
      destruct rest as [|d rest']; [reflexivity|].
      cbn [strip_prefix] in *. destruct (Ascii.eqb "-" d);
        [discriminate | reflexivity]. }
    rewrite E. now rewrite IH.
Qed.

Lemma comment_has_no_double_dash_witness :
  Scan.has_substring "--" (Comments.escape_dashes "a --> b") = false
  /\ Comments.escape_dashes "a - b" = "a - b".
Proof.
  split.
  - apply (proj1 (comment_has_no_double_dash "a --> b")).
  - apply (proj2 (comment_has_no_double_dash "a - b")). reflexivity.
Defined.

(** ** Lengths with units *)

Lemma span_spec (f : ascii -> bool) (s : string) :
  forall a b,
    Images.span f s = (a, b) ->
    s = a ++ b /\ Scan.all_chars f a = true /\ Scan.stops f b = true.
Proof.
  induction s as [|c s IH]; intros a b H; simpl in H.
  - injection H as <- <-. repeat split.
  - destruct (f c) eqn:E.
    + destruct (Images.span f s) as [a' b'].
      injection H as <- <-.
      destruct (IH a' b' eq_refl) as [-> [Ha Hb]].
      repeat split; [simpl; now rewrite E, Ha | exact Hb].
    + injection H as <- <-. repeat split. simpl. now rewrite E.
Qed.

Lemma span_app (f : ascii -> bool) (a b : string) :
  Scan.all_chars f a = true -> Scan.stops f b = true ->
  Images.span f (a ++ b) = (a, b).
Proof.
  intros Ha Hb. induction a as [|c a IH]; simpl in *.
  - destruct b as [|d b]; [reflexivity|]. simpl in *.
    apply negb_true_iff in Hb. now rewrite Hb.
  - apply andb_prop in Ha. destruct Ha as [Hc Ha].
    now rewrite Hc, IH.
Qed.

(** X24.  Reading a length.  When [get_value_with_unit] returns, the number is
    a non-empty run of digits and periods, the value is the number
    followed by the unit as written (and at most a final line break), and
    the unit returned is the written one, or [px] when none was written.
    Conversely a number followed by a unit without white space is read
    back as that number and that unit. *)
Theorem length_with_unit :
  (forall value number unit : string,
      Images.get_value_with_unit value = Ok (number, unit) ->
      number <> ""
      /\ Scan.all_chars Images.is_number_char number = true
      /\ exists written tail,
           value = number ++ written ++ tail
           /\ (tail = "" \/ tail = String (chr 10) "")
           /\ Scan.all_chars Images.is_visible written = true
           /\ unit = if String.eqb written "" then "px" else written)
  /\ (forall number written : string,
         number <> "" ->
         Scan.all_chars Images.is_number_char number = true ->
         Scan.all_chars Images.is_visible written = true ->
         Scan.stops Images.is_number_char written = true ->
         Images.get_value_with_unit (number ++ written)
         = Ok (number, if String.eqb written "" then "px" else written)).
Proof.
  split.
  - intros value number unit. unfold Images.get_value_with_unit.
    destruct (Images.span Images.is_number_char value) as [num rest] eqn:E1.
    destruct (Images.span Images.is_visible rest) as [u tail] eqn:E2.
    destruct (span_spec _ _ _ _ E1) as [-> [Hn _]].
    destruct (span_spec _ _ _ _ E2) as [-> [Hu _]].
    destruct (String.eqb num "") eqn:En; [discriminate|].
    destruct (String.eqb tail "" || String.eqb tail (String (chr 10) ""))
      eqn:Et; [|discriminate].
    intros H. injection H as <- <-.
    split; [intros ->; discriminate En|]. split; [exact Hn|].
    exists u, tail. split; [reflexivity|]. split; [|split; auto].
    apply orb_prop in Et. destruct Et as [Et|Et];
      apply String.eqb_eq in Et; auto.
  - intros number written Hne Hn Hw Hs.
    unfold Images.get_value_with_unit.
    rewrite (span_app _ number written Hn Hs).
    rewrite <- (append_empty_r written) at 1.
    rewrite (span_app _ written "" Hw eq_refl).
    destruct (String.eqb number "") eqn:E;
      [apply String.eqb_eq in E; contradiction | reflexivity].
Qed.

Lemma length_with_unit_witness :
  Images.get_value_with_unit ("2.5" ++ "em") = Ok ("2.5", "em")
  /\ Images.get_value_with_unit ("40" ++ "") = Ok ("40", "px").
Proof.
  split.
  - apply (proj2 length_with_unit "2.5" "em");
      [discriminate | reflexivity | reflexivity | reflexivity].
  - apply (proj2 length_with_unit "40" "");
      [discriminate | reflexivity | reflexivity | reflexivity].
Defined.

(** ** The parts of the output *)

Lemma skipn_length_app {A : Type} (l f : list A) :
  skipn (List.length l) (l ++ f) = f.
Proof. induction l as [|x l IH]; simpl; [reflexivity | exact IH]. Qed.

Lemma firstn_length_app {A : Type} (l f : list A) :
  firstn (List.length l) (l ++ f) = l.
Proof. induction l as [|x l IH]; simpl; [reflexivity | now rewrite IH]. Qed.

(** X25.  What is written inside a footer or a header does not stay in [body].
    When the footer is left, the fragments that its children appended have
    moved, wrapped in the [div] of the footer, to [footer] and to the front
    of [body_suffix], and [body] is what it was before the footer was
    entered; a header goes to [header] and to the end of [body_prefix] in
    the same way. *)
Theorem decorations_leave_body :
  forall (in_mailto cloak : bool) (node_attributes : dict)
         (t t' : Parts.translator) (fragments : list string),
    (Parts.depart_footer in_mailto cloak node_attributes
       (Parts.visit_footer t) (Parts.written fragments t) = Ok t' ->
     exists tag,
       Parts.lists t' "body" = Parts.lists t "body"
       /\ Parts.lists t' "footer"
          = (Parts.lists t "footer"
             ++ tag :: Parts.footer_rule :: fragments
             ++ [Parts.footer_end])%list
       /\ Parts.lists t' "body_suffix"
          = ((tag :: Parts.footer_rule :: fragments
              ++ [Parts.footer_end])
             ++ Parts.lists t "body_suffix")%list
       /\ Parts.lists t' "body_prefix" = Parts.lists t "body_prefix")
    /\ (Parts.depart_header in_mailto cloak node_attributes
          (Parts.visit_header t) (Parts.written fragments t) = Ok t' ->
        exists tag,
          Parts.lists t' "body" = Parts.lists t "body"
          /\ Parts.lists t' "header"
             = (Parts.lists t "header"
                ++ tag :: fragments ++ [Parts.header_end])%list
          /\ Parts.lists t' "body_prefix"
             = (Parts.lists t "body_prefix"
                ++ tag :: fragments ++ [Parts.header_end])%list
          /\ Parts.lists t' "body_suffix" = Parts.lists t "body_suffix").
Proof.
  intros in_mailto cloak node_attributes t t' fragments. split.
  - unfold Parts.depart_footer, Parts.visit_footer.
    destruct (starttag _ _ _ _ _ _ _) as [tag|]; [|discriminate].
    cbn [bind]. intros H. injection H as <-. exists tag.
    unfold Parts.written, Parts.extend, Parts.insert_front, Parts.assign,
      Parts.upd, append.
    cbn [Parts.lists String.eqb Ascii.eqb Bool.eqb].
    rewrite skipn_length_app, firstn_length_app.
    cbn [app]. rewrite <- ?app_assoc. cbn [app]. repeat split.
  - unfold Parts.depart_header, Parts.visit_header.
    destruct (starttag _ _ _ _ _ _ _) as [tag|]; [|discriminate].
    cbn [bind]. intros H. injection H as <-. exists tag.
    unfold Parts.written, Parts.extend, Parts.insert_front, Parts.assign,
      Parts.upd, append.
    cbn [Parts.lists String.eqb Ascii.eqb Bool.eqb].
    rewrite skipn_length_app, firstn_length_app.
    cbn [app]. rewrite <- ?app_assoc. cbn [app]. repeat split.
Qed.

Lemma decorations_leave_body_witness :
  exists t' tag,
    Parts.depart_footer false false [] 0
      (Parts.written ["generated"] (Parts.initial "" [])) = Ok t'
    /\ Parts.lists t' "body" = []
    /\ Parts.lists t' "body_suffix"
       = [tag; Parts.footer_rule; "generated"; Parts.footer_end;
          Parts.body_close].
Proof.
  destruct (Parts.depart_footer false false [] 0
              (Parts.written ["generated"] (Parts.initial "" [])))
    as [t'|e] eqn:E; [|vm_compute in E; discriminate E].
  destruct (proj1 (decorations_leave_body false false []
                     (Parts.initial "" []) t' ["generated"]) E)
    as [tag [Hb [_ [Hs _]]]].
  exists t', tag. split; [reflexivity|]. split; [exact Hb | exact Hs].
Defined.

Lemma removelast_snoc {A : Type} (l : list A) (x : A) :
  removelast (l ++ [x]) = l.
Proof. apply removelast_last. Qed.

(** X26.  The title of the document.  When the title of the document is left,
    [title] holds the fragments written inside it, without the [h1] tags;
    all of [body], the tags included, has moved to the end of
    [body_pre_docinfo] and of [html_title]; [body] is empty and the mark
    [in_document_title] is cleared. *)
Theorem document_title_extracted :
  forall (in_mailto cloak : bool) (section_level initial_header_level : Z)
         (parent : nodes.node) (node_attributes : dict)
         (t t1 : Parts.translator) (close_tag : string)
         (fragments : list string),
    nodes.is_kind nodes.document parent = true ->
    Parts.visit_title in_mailto cloak section_level initial_header_level
      parent node_attributes t = Ok (t1, close_tag) ->
    let t' := Parts.depart_title close_tag (Parts.written fragments t1) in
    close_tag = "</h1>" ++ Parts.nl
    /\ Parts.lists t' "title" = fragments
    /\ Parts.lists t' "body" = []
    /\ Parts.in_document_title t' = 0
    /\ exists tag,
         Parts.lists t' "body_pre_docinfo"
         = (Parts.lists t "body_pre_docinfo" ++ Parts.lists t "body"
            ++ tag :: fragments ++ [close_tag])%list
         /\ Parts.lists t' "html_title"
            = (Parts.lists t "html_title" ++ Parts.lists t "body"
               ++ tag :: fragments ++ [close_tag])%list.
Proof.
  intros in_mailto cloak section_level initial_header_level parent
         node_attributes t t1 close_tag fragments Hk.
  apply is_kind_eq in Hk. destruct Hk as [a [cs ->]].
  unfold Parts.visit_title.
  change (nodes.is_kind nodes.topic (nodes.Element nodes.document a cs))
    with false.
  change (nodes.is_kind nodes.sidebar (nodes.Element nodes.document a cs))
    with false.
  change (nodes.is_kind nodes.admonition
            (nodes.Element nodes.document a cs)) with false.
  change (nodes.is_kind nodes.table (nodes.Element nodes.document a cs))
    with false.
  change (nodes.is_kind nodes.document (nodes.Element nodes.document a cs))
    with true.
  cbn iota.
  destruct (starttag _ _ _ _ _ _ _) as [tag|]; [|discriminate].
  cbn [bind]. cbv zeta. intros H. injection H as <- <-.
  split; [reflexivity|].
  assert (Hlen : List.length (Parts.lists t "body" ++ [tag])
                 = S (List.length (Parts.lists t "body")))
    by (rewrite length_app; simpl; lia).
  unfold Parts.depart_title, Parts.extract, Parts.written, Parts.extend,
    Parts.mark_title, Parts.assign, Parts.upd.
  cbn [Parts.lists Parts.in_document_title String.eqb Ascii.eqb Bool.eqb].
  rewrite Hlen. cbn [Nat.eqb].
  cbn [Parts.lists Parts.in_document_title String.eqb Ascii.eqb Bool.eqb].
  rewrite removelast_snoc.
  rewrite <- Hlen, skipn_length_app.
  repeat split. exists tag. rewrite <- !app_assoc. cbn [app].
  split; reflexivity.
Qed.

Lemma document_title_extracted_witness :
  exists t1 close_tag,
    Parts.visit_title false false 0 1 (plain nodes.document []) []
      (Parts.initial "" []) = Ok (t1, close_tag)
    /\ Parts.lists (Parts.depart_title close_tag
                      (Parts.written ["Title"] t1)) "title" = ["Title"]
    /\ Parts.lists (Parts.depart_title close_tag
                      (Parts.written ["Title"] t1)) "body" = [].
Proof.
  destruct (Parts.visit_title false false 0 1 (plain nodes.document []) []
              (Parts.initial "" [])) as [[t1 close_tag]|e] eqn:E;
    [|vm_compute in E; discriminate E].
  exists t1, close_tag. split; [reflexivity|].
  destruct (document_title_extracted false false 0 1
              (plain nodes.document []) [] (Parts.initial "" []) t1
              close_tag ["Title"] eq_refl E) as [_ [H1 [H2 _]]].
  split; [exact H1 | exact H2].
Defined.

(** X27.  The subtitle of the document.  [visit_subtitle] marks the length of
    [body] before it appends its own tag.  Right after the title of the
    document [body] is empty, so the mark is 0 and counts as not set: the
    subtitle stays in [body], and [subtitle], [html_subtitle] and
    [body_pre_docinfo] get nothing from it.  Only when [body] is not empty
    at that point is the subtitle cut out, and then together with its own
    start tag. *)
Theorem document_subtitle_extraction :
  forall (in_mailto cloak : bool) (parent : nodes.node)
         (node_attributes : dict) (t t1 : Parts.translator)
         (fragments : list string),
    nodes.is_kind nodes.document parent = true ->
    Parts.visit_subtitle in_mailto cloak parent node_attributes t
    = Parts.Done t1 ->
    let t' := Parts.depart_subtitle (Parts.written fragments t1) in
    exists tag,
      (Parts.lists t "body" = [] ->
       Parts.lists t' "body"
       = (tag :: fragments ++ [Parts.paragraph_end])%list
       /\ Parts.lists t' "subtitle" = Parts.lists t "subtitle"
       /\ Parts.lists t' "html_subtitle" = Parts.lists t "html_subtitle"
       /\ Parts.lists t' "body_pre_docinfo"
          = Parts.lists t "body_pre_docinfo")
      /\ (Parts.lists t "body" <> [] ->
          Parts.lists t' "body" = []
          /\ Parts.lists t' "subtitle" = (tag :: fragments)%list
          /\ Parts.lists t' "html_subtitle"
             = (Parts.lists t "html_subtitle" ++ Parts.lists t "body"
                ++ tag :: fragments ++ [Parts.paragraph_end])%list).
Proof.
  intros in_mailto cloak parent node_attributes t t1 fragments Hk.
  apply is_kind_eq in Hk. destruct Hk as [a [cs ->]].
  unfold Parts.visit_subtitle.
  change (nodes.is_kind nodes.sidebar (nodes.Element nodes.document a cs))
    with false.
  change (nodes.is_kind nodes.document (nodes.Element nodes.document a cs))
    with true.
  cbn iota.
  destruct (starttag _ _ _ _ _ _ _) as [tag|]; [|discriminate].
  cbv zeta. intros H. injection H as <-. exists tag.
  unfold Parts.depart_subtitle, Parts.extract, Parts.written, Parts.extend,
    Parts.mark_title, Parts.assign, Parts.upd.
  cbn [Parts.lists Parts.in_document_title String.eqb Ascii.eqb Bool.eqb].
  split.
  - intros ->. cbn [List.length Nat.eqb app].
    cbn [Parts.lists Parts.in_document_title String.eqb Ascii.eqb Bool.eqb].
    repeat split.
  - intros Hne.
    destruct (Parts.lists t "body") as [|b0 body] eqn:Eb; [congruence|].
    cbn [List.length Nat.eqb].
    cbn [Parts.lists Parts.in_document_title String.eqb Ascii.eqb Bool.eqb].
    rewrite !app_assoc, removelast_snoc, <- !app_assoc.
    change (S (List.length body)) with (List.length (b0 :: body)).
    rewrite skipn_length_app. cbn [app]. repeat split.
Qed.

Lemma document_subtitle_extraction_witness :
  exists t1 tag,
    Parts.visit_subtitle false false (plain nodes.document []) []
      (Parts.initial "" []) = Parts.Done t1
    /\ Parts.lists (Parts.depart_subtitle (Parts.written ["Sub"] t1))
         "body" = [tag; "Sub"; Parts.paragraph_end]
    /\ Parts.lists (Parts.depart_subtitle (Parts.written ["Sub"] t1))
         "subtitle" = [].
Proof.
  destruct (Parts.visit_subtitle false false (plain nodes.document []) []
              (Parts.initial "" [])) as [t1|e|x] eqn:E;
    [|vm_compute in E; discriminate E | vm_compute in E; discriminate E].
  destruct (document_subtitle_extraction false false
              (plain nodes.document []) [] (Parts.initial "" []) t1
              ["Sub"] eq_refl E) as [tag [H _]].
  destruct (H eq_refl) as [Hb [Hs _]].
  exists t1, tag. split; [reflexivity|]. split; [exact Hb | exact Hs].
Defined.

Lemma lists_assign (name : string) (v : list string)
  (t : Parts.translator) (k : string) :
  Parts.lists (Parts.assign name v t) k
  = if String.eqb k name then v else Parts.lists t k.
Proof. reflexivity. Qed.

Lemma string_app_assoc (a b c : string) : (a ++ b) ++ c = a ++ b ++ c.
Proof. induction a as [|x a IH]; simpl; [reflexivity | now rewrite IH]. Qed.

(** X28.  The assembled document.  When [depart_document] returns, the stack
    was empty, [fragment] has received the body, and, for a translator
    whose [body_prefix] still begins with the opening of the body element
    and whose [body_suffix] still ends with its closing, [html_body] is
    exactly what the full text holds between the two. *)
Theorem document_parts_assembled :
  forall (in_mailto cloak : bool) (node_attributes : dict)
         (doctype lang encoding math_output : string)
         (context_empty : bool) (t t' : Parts.translator)
         (prefix suffix : list string),
    Parts.depart_document in_mailto cloak node_attributes doctype lang
      encoding math_output context_empty t = Ok t' ->
    Parts.lists t "body_prefix" = Parts.body_open :: prefix ->
    Parts.lists t "body_suffix" = (suffix ++ [Parts.body_close])%list ->
    Parts.lists t "html_body" = [] ->
    context_empty = true
    /\ Parts.lists t' "fragment"
       = (Parts.lists t "fragment" ++ Parts.lists t "body")%list
    /\ Parts.body_text t'
       = Parts.body_open ++ concat_all (Parts.lists t' "html_body")
         ++ Parts.body_close.
Proof.
  intros in_mailto cloak node_attributes doctype lang encoding math_output
         context_empty t t' prefix suffix H Hp Hs Hh.
  unfold Parts.depart_document in H.
  set (t4 := Parts.insert_front "head" _ _) in H.
  set (t5 := match Parts.lists t4 "math_header" with
             | [] => t4
             | _ :: _ => _
             end) in H.
  destruct (starttag _ _ _ _ _ _ _) as [tag|]; [|discriminate].
  cbn [bind] in H.
  destruct context_empty; [|discriminate].
  injection H as <-. split; [reflexivity|].
  assert (H4 : forall k : string,
             String.eqb k "head_prefix" = false ->
             String.eqb k "html_prolog" = false ->
             String.eqb k "meta" = false ->
             String.eqb k "head" = false ->
             Parts.lists t4 k = Parts.lists t k).
  { intros k E1 E2 E3 E4. unfold t4, Parts.insert_front, Parts.extend.
    now rewrite !lists_assign, E1, E2, E3, E4. }
  assert (H5 : forall k : string,
             String.eqb k "head" = false ->
             String.eqb k "stylesheet" = false ->
             Parts.lists t5 k = Parts.lists t4 k).
  { intros k E1 E2. unfold t5.
    destruct (Parts.lists t4 "math_header");
      [|destruct (String.eqb math_output "mathjax")];
      unfold Parts.extend; rewrite ?lists_assign, ?E1, ?E2; reflexivity. }
  assert (H6 : forall k : string,
             String.eqb k "head_prefix" = false ->
             String.eqb k "html_prolog" = false ->
             String.eqb k "meta" = false ->
             String.eqb k "head" = false ->
             String.eqb k "stylesheet" = false ->
             Parts.lists t5 k = Parts.lists t k).
  { intros k E1 E2 E3 E4 E5. now rewrite H5, H4. }
  clearbody t5. clear t4 H4 H5.
  unfold Parts.body_text, Parts.extend, Parts.insert_front.
  cbn [Parts.lists Parts.assign Parts.upd String.eqb Ascii.eqb Bool.eqb].
  rewrite ?(H6 "body_prefix"), ?(H6 "body_pre_docinfo"), ?(H6 "docinfo"),
    ?(H6 "body"), ?(H6 "body_suffix"), ?(H6 "fragment"), ?(H6 "html_body")
    by reflexivity.
  rewrite Hp, Hs, Hh.
  split; [reflexivity|].
  assert (Hm : forall X : list string,
             match (suffix ++ [Parts.body_close])%list with
             | [] => []
             | _ :: _ => X
             end = X) by (intros X; destruct suffix; reflexivity).
  rewrite ?removelast_snoc, Hm.
  cbn [tl app]. rewrite !concat_all_app. cbn [concat_all].
  rewrite !concat_all_app. cbn [concat_all].
  rewrite ?append_empty_r, ?string_app_assoc.
  rewrite ?concat_all_app. cbn [concat_all].
  rewrite ?append_empty_r, ?string_app_assoc. reflexivity.
Qed.

Lemma document_parts_assembled_witness :
  exists t',
    Parts.depart_document false false [] "<!DOCTYPE html>" "en" "utf-8"
      "html" true (Parts.written ["<p>text</p>"] (Parts.initial "" []))
    = Ok t'
    /\ Parts.lists t' "fragment" = ["<p>text</p>"]
    /\ Parts.body_text t'
       = Parts.body_open ++ concat_all (Parts.lists t' "html_body")
         ++ Parts.body_close.
Proof.
  destruct (Parts.depart_document false false [] "<!DOCTYPE html>" "en"
              "utf-8" "html" true
              (Parts.written ["<p>text</p>"] (Parts.initial "" [])))
    as [t'|e] eqn:E; [|vm_compute in E; discriminate E].
  exists t'. split; [reflexivity|].
  exact (proj2 (document_parts_assembled false false [] "<!DOCTYPE html>"
                  "en" "utf-8" "html" true
                  (Parts.written ["<p>text</p>"] (Parts.initial "" []))
                  t' [] [] E eq_refl eq_refl eq_refl)).
Defined.

(** ** Footnote and citation lists *)




